(** * MoonTV: the source health checker [scripts/check-sources.js]

    A shallow embedding of the script and the properties its specification
    states about it.  The script reads [config.json], probes every entry of
    [api_site] with one GET request under a pool of eight workers, classifies
    the answers and writes a report.

    Layout: the JavaScript data the script touches (strings as UTF-16 code
    units, JSON values, thrown errors), the functions of the script in source
    order, then the theorems. *)

From Stdlib Require Import String Ascii NArith ZArith List Bool Lia DecimalN.
From stdpp Require Import base list.
Import ListNotations.

(** ** JavaScript strings

    A JavaScript string is a sequence of UTF-16 code units. *)

Definition char16 := N.
Definition jsstring := list char16.

Definition js (s : string) : jsstring :=
  map N_of_ascii (list_ascii_of_string s).
Arguments js _%_string.

Definition char_is (c : char16) (a : ascii) : bool := N.eqb c (N_of_ascii a).
Arguments char_is _ _%_char.

Fixpoint jsstring_eqb (a b : jsstring) : bool :=
  match a, b with
  | [], [] => true
  | x :: a', y :: b' => N.eqb x y && jsstring_eqb a' b'
  | _, _ => false
  end.

(** [String.prototype.trim] removes WhiteSpace and LineTerminator code points
    (ECMA-262, 22.1.3.32): TAB, LF, VT, FF, CR, SP, NBSP, the Unicode space
    separators, LS, PS and the byte order mark. *)
Definition is_trim_space (c : char16) : bool :=
  ((9 <=? c) && (c <=? 13) || (c =? 32) || (c =? 160) || (c =? 5760)
   || (8192 <=? c) && (c <=? 8202) || (c =? 8232) || (c =? 8233)
   || (c =? 8239) || (c =? 8287) || (c =? 12288) || (c =? 65279))%N.

Fixpoint trimStart (s : jsstring) : jsstring :=
  match s with
  | c :: r => if is_trim_space c then trimStart r else s
  | [] => []
  end.

Definition trimEnd (s : jsstring) : jsstring := rev (trimStart (rev s)).

Definition trim (s : jsstring) : jsstring := trimEnd (trimStart s).

(** [s.startsWith(c)] and [s.includes(c)] for a one-character needle. *)
Definition startsWith (s : jsstring) (a : ascii) : bool :=
  match s with
  | c :: _ => char_is c a
  | [] => false
  end.
Arguments startsWith _ _%_char.

Definition includes (s : jsstring) (a : ascii) : bool := existsb (fun c => char_is c a) s.
Arguments includes _ _%_char.

(** Decimal rendering of a non-negative integer, as a template literal
    prints it. *)
Fixpoint uint_digits (d : Decimal.uint) : jsstring :=
  match d with
  | Decimal.Nil => []
  | Decimal.D0 r => 48%N :: uint_digits r
  | Decimal.D1 r => 49%N :: uint_digits r
  | Decimal.D2 r => 50%N :: uint_digits r
  | Decimal.D3 r => 51%N :: uint_digits r
  | Decimal.D4 r => 52%N :: uint_digits r
  | Decimal.D5 r => 53%N :: uint_digits r
  | Decimal.D6 r => 54%N :: uint_digits r
  | Decimal.D7 r => 55%N :: uint_digits r
  | Decimal.D8 r => 56%N :: uint_digits r
  | Decimal.D9 r => 57%N :: uint_digits r
  end.

Definition decimal (n : N) : jsstring := uint_digits (N.to_uint n).

(** ** Thrown values and completions

    Every value thrown in this script is an [Error] object; [String(e)] is
    [Error.prototype.toString]. *)

Record exn := { exn_name : jsstring; exn_message : jsstring }.

Definition exn_toString (e : exn) : jsstring :=
  match exn_name e, exn_message e with
  | n, [] => n
  | [], m => m
  | n, m => n ++ js ": " ++ m
  end.

Definition TypeError (m : jsstring) : exn := {| exn_name := js "TypeError"; exn_message := m |}.
Definition SyntaxError (m : jsstring) : exn := {| exn_name := js "SyntaxError"; exn_message := m |}.
Definition URIError (m : jsstring) : exn := {| exn_name := js "URIError"; exn_message := m |}.
Definition AbortError : exn :=
  {| exn_name := js "AbortError"; exn_message := js "This operation was aborted" |}.

(** The outcome of evaluating a piece of code: a value, or a throw. *)
Inductive completion (A : Type) : Type :=
| Normal (a : A)
| Throw (e : exn).
Arguments Normal {A} a.
Arguments Throw {A} e.

#[global] Instance completion_ret : MRet completion := @Normal.

#[global] Instance completion_bind : MBind completion :=
  fun A B (k : A -> completion B) (c : completion A) =>
    match c with
    | Normal a => k a
    | Throw e => Throw e
    end.

(** [try { body } catch (e) { handler }] *)
Definition try_catch {A} (body : completion A) (handler : exn -> completion A) : completion A :=
  match body with
  | Normal a => Normal a
  | Throw e => handler e
  end.

(** ** JSON values

    What [JSON.parse] returns.  A number is kept as the literal that denotes
    it; an object is the list of its own properties in property order. *)

#[warnings="-register-all"]
Inductive json : Type :=
| JNull
| JBool (b : bool)
| JNum (literal : jsstring)
| JStr (s : jsstring)
| JArr (elements : list json)
| JObj (properties : list (jsstring * json)).

(** A property key is an array index when it is the canonical decimal form of
    an integer below 2^32 - 1. *)
Definition is_digit (c : char16) : bool := ((48 <=? c) && (c <=? 57))%N.

Fixpoint digits_value (acc : N) (s : jsstring) : N :=
  match s with
  | c :: r => digits_value (10 * acc + (c - 48))%N r
  | [] => acc
  end.

Definition array_index (k : jsstring) : option N :=
  match k with
  | [] => None
  | c :: r =>
      if forallb is_digit k && (negb (char_is c "0") || match r with [] => true | _ => false end)
      then let n := digits_value 0 k in
           if (n <? 4294967295)%N then Some n else None
      else None
  end.

(** [CreateDataProperty(obj, k, v)] on an ordinary object: the value of an
    existing key is overwritten in place; a new array index goes among the
    indices in ascending order, any other new key goes last. *)
Definition has_key (k : jsstring) (props : list (jsstring * json)) : bool :=
  existsb (fun p => jsstring_eqb k (fst p)) props.

Fixpoint overwrite (k : jsstring) (v : json) (props : list (jsstring * json))
  : list (jsstring * json) :=
  match props with
  | [] => []
  | (k', v') :: rest =>
      if jsstring_eqb k k' then (k, v) :: rest else (k', v') :: overwrite k v rest
  end.

Fixpoint add_index (i : N) (k : jsstring) (v : json) (props : list (jsstring * json))
  : list (jsstring * json) :=
  match props with
  | [] => [(k, v)]
  | (k', v') :: rest =>
      match array_index k' with
      | Some i' => if (i <? i')%N then (k, v) :: props else (k', v') :: add_index i k v rest
      | None => (k, v) :: props
      end
  end.

Definition define_property (k : jsstring) (v : json) (props : list (jsstring * json))
  : list (jsstring * json) :=
  if has_key k props then overwrite k v props
  else match array_index k with
       | Some i => add_index i k v props
       | None => props ++ [(k, v)]
       end.

(** ** [JSON.parse]

    The JSON grammar of ECMA-404, as [JSON.parse] reads it: insignificant
    white space is SP, TAB, LF and CR only; a text is one value. *)

Inductive parsed (A : Type) : Type :=
| Parsed (a : A) (rest : jsstring)
| Unexpected
| OutOfFuel.
Arguments Parsed {A} a rest.
Arguments Unexpected {A}.
Arguments OutOfFuel {A}.

Definition is_json_space (c : char16) : bool :=
  ((c =? 32) || (c =? 9) || (c =? 10) || (c =? 13))%N.

Fixpoint skip_ws (s : jsstring) : jsstring :=
  match s with
  | c :: r => if is_json_space c then skip_ws r else s
  | [] => []
  end.

Fixpoint take_digits (s : jsstring) : jsstring * jsstring :=
  match s with
  | c :: r =>
      if is_digit c then let '(d, r') := take_digits r in (c :: d, r') else ([], s)
  | [] => ([], [])
  end.

(** number = [ minus ] int [ frac ] [ exp ] *)
Definition parse_int (s : jsstring) : parsed jsstring :=
  match s with
  | c :: r =>
      if char_is c "0" then Parsed [c] r
      else if is_digit c then let '(d, r') := take_digits r in Parsed (c :: d) r'
      else Unexpected
  | [] => Unexpected
  end.

Definition parse_frac (s : jsstring) : parsed jsstring :=
  match s with
  | c :: r =>
      if char_is c "." then
        match take_digits r with
        | ([], _) => Unexpected
        | (d, r') => Parsed (c :: d) r'
        end
      else Parsed [] s
  | [] => Parsed [] s
  end.

(** An optional character out of two. *)
Definition take_optional (a b : ascii) (s : jsstring) : jsstring * jsstring :=
  match s with
  | c :: r => if char_is c a || char_is c b then ([c], r) else ([], s)
  | [] => ([], s)
  end.

Definition parse_exp (s : jsstring) : parsed jsstring :=
  match s with
  | c :: r =>
      if char_is c "e" || char_is c "E" then
        let '(sign, r1) := take_optional "+" "-" r in
        match take_digits r1 with
        | ([], _) => Unexpected
        | (d, r') => Parsed (c :: sign ++ d) r'
        end
      else Parsed [] s
  | [] => Parsed [] s
  end.

Definition parse_number (s : jsstring) : parsed jsstring :=
  let '(minus, s1) := take_optional "-" "-" s in
  match parse_int s1 with
  | Parsed i s2 =>
      match parse_frac s2 with
      | Parsed f s3 =>
          match parse_exp s3 with
          | Parsed e s4 => Parsed (minus ++ i ++ f ++ e) s4
          | _ => Unexpected
          end
      | _ => Unexpected
      end
  | _ => Unexpected
  end.

Definition quote : char16 := 34%N.
Definition backslash : char16 := 92%N.

Definition hex_value (c : char16) : option N :=
  if is_digit c then Some (c - 48)%N
  else if ((97 <=? c) && (c <=? 102))%N then Some (c - 87)%N
  else if ((65 <=? c) && (c <=? 70))%N then Some (c - 55)%N
  else None.

Definition simple_escape (c : char16) : option char16 :=
  if N.eqb c quote then Some quote
  else if N.eqb c backslash then Some backslash
  else if char_is c "/" then Some 47%N
  else if char_is c "b" then Some 8%N
  else if char_is c "f" then Some 12%N
  else if char_is c "n" then Some 10%N
  else if char_is c "r" then Some 13%N
  else if char_is c "t" then Some 9%N
  else None.

(** The characters of a string after its opening quote, up to and including
    the closing quote. *)
Fixpoint parse_chars (s : jsstring) : parsed jsstring :=
  match s with
  | [] => Unexpected
  | c :: r =>
      if N.eqb c quote then Parsed [] r
      else if N.eqb c backslash then
        match r with
        | [] => Unexpected
        | e :: r1 =>
            if char_is e "u" then
              match r1 with
              | h1 :: h2 :: h3 :: h4 :: r2 =>
                  match hex_value h1, hex_value h2, hex_value h3, hex_value h4 with
                  | Some a, Some b, Some c', Some d =>
                      match parse_chars r2 with
                      | Parsed t r' => Parsed ((4096 * a + 256 * b + 16 * c' + d)%N :: t) r'
                      | other => other
                      end
                  | _, _, _, _ => Unexpected
                  end
              | _ => Unexpected
              end
            else
              match simple_escape e with
              | Some x =>
                  match parse_chars r1 with
                  | Parsed t r' => Parsed (x :: t) r'
                  | other => other
                  end
              | None => Unexpected
              end
        end
      else if (c <? 32)%N then Unexpected
      else
        match parse_chars r with
        | Parsed t r' => Parsed (c :: t) r'
        | other => other
        end
  end.

Fixpoint strip_prefix (p s : jsstring) : option jsstring :=
  match p, s with
  | [], _ => Some s
  | a :: p', b :: s' => if N.eqb a b then strip_prefix p' s' else None
  | _ :: _, [] => None
  end.

Definition parse_literal (s : jsstring) : parsed json :=
  match strip_prefix (js "true") s with
  | Some r => Parsed (JBool true) r
  | None =>
      match strip_prefix (js "false") s with
      | Some r => Parsed (JBool false) r
      | None =>
          match strip_prefix (js "null") s with
          | Some r => Parsed JNull r
          | None => Unexpected
          end
      end
  end.

(** value, then the rest of an array after its first bracket or a comma, then
    the rest of an object likewise.  Every call consumes input before the
    next one, so [fuel] beyond twice the length of the text is never used up
    (see [parse_value_fuel]). *)
Fixpoint parse_value (fuel : nat) (s : jsstring) : parsed json :=
  match fuel with
  | O => OutOfFuel
  | S n =>
      match skip_ws s with
      | [] => Unexpected
      | c :: r =>
          if char_is c "{" then
            match skip_ws r with
            | c' :: r' => if char_is c' "}" then Parsed (JObj []) r' else parse_members n [] r
            | [] => Unexpected
            end
          else if char_is c "[" then
            match skip_ws r with
            | c' :: r' => if char_is c' "]" then Parsed (JArr []) r' else parse_elements n [] r
            | [] => Unexpected
            end
          else if N.eqb c quote then
            match parse_chars r with
            | Parsed t r' => Parsed (JStr t) r'
            | Unexpected => Unexpected
            | OutOfFuel => OutOfFuel
            end
          else if char_is c "-" || is_digit c then
            match parse_number (c :: r) with
            | Parsed l r' => Parsed (JNum l) r'
            | Unexpected => Unexpected
            | OutOfFuel => OutOfFuel
            end
          else parse_literal (c :: r)
      end
  end
with parse_elements (fuel : nat) (acc : list json) (s : jsstring) : parsed json :=
  match fuel with
  | O => OutOfFuel
  | S n =>
      match parse_value n s with
      | Parsed v r =>
          match skip_ws r with
          | c :: r' =>
              if char_is c "," then parse_elements n (v :: acc) r'
              else if char_is c "]" then Parsed (JArr (rev (v :: acc))) r'
              else Unexpected
          | [] => Unexpected
          end
      | other => other
      end
  end
with parse_members (fuel : nat) (acc : list (jsstring * json)) (s : jsstring) : parsed json :=
  match fuel with
  | O => OutOfFuel
  | S n =>
      match skip_ws s with
      | q :: r0 =>
          if N.eqb q quote then
            match parse_chars r0 with
            | Parsed k r1 =>
                match skip_ws r1 with
                | colon :: r2 =>
                    if char_is colon ":" then
                      match parse_value n r2 with
                      | Parsed v r3 =>
                          match skip_ws r3 with
                          | c :: r' =>
                              if char_is c "," then parse_members n (define_property k v acc) r'
                              else if char_is c "}" then Parsed (JObj (define_property k v acc)) r'
                              else Unexpected
                          | [] => Unexpected
                          end
                      | other => other
                      end
                    else Unexpected
                | [] => Unexpected
                end
            | Unexpected => Unexpected
            | OutOfFuel => OutOfFuel
            end
          else Unexpected
      | [] => Unexpected
      end
  end.

(** [JSON.parse(text)]: one value between optional white space; anything
    else throws a [SyntaxError] (the engine's wording of the message is not
    modelled).  The last case never happens, see [JSON_parse_fuel]. *)
Definition JSON_parse (text : jsstring) : completion json :=
  match parse_value (2 * length text + 1) text with
  | Parsed v rest =>
      match skip_ws rest with
      | [] => Normal v
      | _ :: _ => Throw (SyntaxError (js "Unexpected non-whitespace character after JSON"))
      end
  | Unexpected => Throw (SyntaxError (js "Unexpected token in JSON"))
  | OutOfFuel => Throw (SyntaxError (js "out of fuel"))
  end.

(** JSON texts in this file are written with an apostrophe where the text
    has a double quote. *)
Definition json_text (s : string) : jsstring :=
  map (fun c => if N.eqb c 39 then quote else c) (js s).
Arguments json_text _%_string.

(** The keys of every object in a value are distinct. *)
#[warnings="-register-all"]
Inductive distinct_keys : json -> Prop :=
| dk_null : distinct_keys JNull
| dk_bool b : distinct_keys (JBool b)
| dk_num l : distinct_keys (JNum l)
| dk_str s : distinct_keys (JStr s)
| dk_arr es : Forall distinct_keys es -> distinct_keys (JArr es)
| dk_obj props :
    NoDup (map fst props) -> Forall (fun p => distinct_keys (snd p)) props ->
    distinct_keys (JObj props).

(** An object with an own property [toString] (after [JSON.parse] never a
    function), or an array with such an object among its elements, at any
    depth: the values that cannot be converted to a string. *)
Fixpoint own_toString (v : json) : bool :=
  match v with
  | JObj props => has_key (js "toString") props
  | JArr es => existsb own_toString es
  | _ => false
  end.

(** ** Numbers

    A JSON number denotes an IEEE-754 double.  The script never computes with
    the numbers of its input: it tests them for truthiness and prints them.
    Both conversions belong to the engine and are parameters of the
    development. *)
Class Numbers := {
  Number_truthy : jsstring -> bool;     (* the double of this literal is not 0 *)
  Number_toString : jsstring -> jsstring (* String(the double of this literal) *)
}.

(** An instance to evaluate examples with: exact on canonical integer
    literals such as [0] and [10000]. *)
Definition literal_numbers : Numbers :=
  {| Number_truthy := fun l => existsb (fun c => is_digit c && negb (char_is c "0")) l;
     Number_toString := fun l => l |}.

(** ** Values and property access *)

(** The property names the script reads.  No string, array, number or
    boolean has a property of one of these names, and [Object.prototype] has
    none either, so only own properties of objects are found. *)
Inductive prop := p_api_site | p_api | p_name | p_list | p_data | p_code | p_total.

Definition prop_name (p : prop) : jsstring :=
  match p with
  | p_api_site => js "api_site"
  | p_api => js "api"
  | p_name => js "name"
  | p_list => js "list"
  | p_data => js "data"
  | p_code => js "code"
  | p_total => js "total"
  end.

Fixpoint own_property (k : jsstring) (props : list (jsstring * json)) : option json :=
  match props with
  | [] => None
  | (k', v) :: rest => if jsstring_eqb k k' then Some v else own_property k rest
  end.

(** [v.p]; [None] is [undefined]. *)
Definition get (v : json) (p : prop) : completion (option json) :=
  match v with
  | JNull => Throw (TypeError (js "Cannot read properties of null (reading '" ++ prop_name p ++ js "')"))
  | JObj props => Normal (own_property (prop_name p) props)
  | _ => Normal None
  end.

Definition Array_isArray (v : option json) : bool :=
  match v with
  | Some (JArr _) => true
  | _ => false
  end.

(** The elements of an array or the characters of a string under their
    indices, counted from [i]. *)
Fixpoint indexed {A} (f : A -> json) (i : nat) (l : list A) : list (jsstring * json) :=
  match l with
  | [] => []
  | x :: r => (decimal (N.of_nat i), f x) :: indexed f (S i) r
  end.

(** [Object.entries(v)]; it throws for [null]. *)
Definition Object_entries (v : json) : completion (list (jsstring * json)) :=
  match v with
  | JNull => Throw (TypeError (js "Cannot convert undefined or null to object"))
  | JObj props => Normal props
  | JArr es => Normal (indexed (fun e => e) 0 es)
  | JStr s => Normal (indexed (fun c => JStr [c]) 0 s)
  | JBool _ | JNum _ => Normal []
  end.

(** [encodeURIComponent]: UTF-8, percent-encoded outside the unreserved
    set; a lone surrogate throws. *)
Definition is_unreserved (c : char16) : bool :=
  (((65 <=? c) && (c <=? 90)) || ((97 <=? c) && (c <=? 122)) || is_digit c
   || (c =? 45) || (c =? 95) || (c =? 46) || (c =? 33) || (c =? 126)
   || (c =? 42) || (c =? 39) || (c =? 40) || (c =? 41))%N.

Definition hex_digit (n : N) : char16 := (if n <? 10 then 48 + n else 55 + n)%N.

Definition percent (byte : N) : jsstring :=
  [37%N; hex_digit (byte / 16); hex_digit (byte mod 16)].

Definition utf8 (cp : N) : jsstring :=
  (if cp <? 128 then percent cp
   else if cp <? 2048 then percent (192 + cp / 64) ++ percent (128 + cp mod 64)
   else if cp <? 65536 then
     percent (224 + cp / 4096) ++ percent (128 + (cp / 64) mod 64) ++ percent (128 + cp mod 64)
   else
     percent (240 + cp / 262144) ++ percent (128 + (cp / 4096) mod 64)
     ++ percent (128 + (cp / 64) mod 64) ++ percent (128 + cp mod 64))%N.

Fixpoint encodeURIComponent (s : jsstring) : completion jsstring :=
  match s with
  | [] => Normal []
  | c :: r =>
      if is_unreserved c then t ← encodeURIComponent r; Normal (c :: t)
      else if ((56320 <=? c) && (c <=? 57343))%N then Throw (URIError (js "URI malformed"))
      else if ((55296 <=? c) && (c <=? 56319))%N then
        match r with
        | d :: r' =>
            if ((56320 <=? d) && (d <=? 57343))%N then
              t ← encodeURIComponent r';
              Normal (utf8 ((c - 55296) * 1024 + (d - 56320) + 65536)%N ++ t)
            else Throw (URIError (js "URI malformed"))
        | [] => Throw (URIError (js "URI malformed"))
        end
      else t ← encodeURIComponent r; Normal (utf8 c ++ t)
  end.

(** ** The network

    What [fetch] is asked, and how a request ends: the promise of [fetch]
    rejects (no connection, malformed URL, or [AbortError] once the timer has
    called [ac.abort()]), or it resolves to a response whose body
    [res.text()] then delivers or fails to deliver. *)

Record request := {
  req_url : jsstring;
  req_method : jsstring;
  req_headers : list (jsstring * jsstring);
  req_redirect : jsstring;
  req_abort_after : N  (* delay of the timer that aborts the request *)
}.

Record response := {
  res_status : N;
  res_text : completion jsstring
}.

(** [Response.ok]: the status is in the range 200 to 299. *)
Definition res_ok (res : response) : bool :=
  ((200 <=? res_status res) && (res_status res <=? 299))%N.

(** ** The script *)

Inductive verdict :=
| v_ok | v_pass | v_ok_maybe | v_unknown | v_xml_or_html | v_text | v_empty | v_fail.

Definition verdict_name (v : verdict) : jsstring :=
  match v with
  | v_ok => js "ok"
  | v_pass => js "pass"
  | v_ok_maybe => js "ok_maybe"
  | v_unknown => js "unknown"
  | v_xml_or_html => js "xml_or_html"
  | v_text => js "text"
  | v_empty => js "empty"
  | v_fail => js "fail"
  end.

Definition verdict_eqb (a b : verdict) : bool :=
  match a, b with
  | v_ok, v_ok | v_pass, v_pass | v_ok_maybe, v_ok_maybe | v_unknown, v_unknown
  | v_xml_or_html, v_xml_or_html | v_text, v_text | v_empty, v_empty | v_fail, v_fail => true
  | _, _ => false
  end.

(** The object [fetchWithTimeout] returns: [{ ok, status, text }] or
    [{ ok, status, error }]. *)
Record FetchResult := {
  r_ok : bool;
  r_status : N;
  r_text : option jsstring;
  r_error : option jsstring
}.

(** The object [judgeResponseShape] returns. *)
Record judge := { j_verdict : verdict; j_detail : jsstring }.

(** One element of [results]. *)
Record ProbeResult := {
  pr_key : jsstring;
  pr_name : json;
  pr_base : json;
  pr_testUrl : jsstring;
  pr_verdict : verdict;
  pr_status : N;
  pr_ms : Z;
  pr_detail : jsstring
}.

(** A worker is an async function: suspended at its [await] with the entry
    it took from the queue (and the number of its request), returned, or
    ended by a throw. *)
Inductive worker :=
| Awaiting (key : jsstring) (site base : json) (testUrl : jsstring) (id : nat)
| Returned
| Threw (e : exn).

(** The variables the workers share ([queue], [results], [tested]), the
    console, and the network as the script drives it: every request handed
    to [fetch] so far, and how many of them have not ended yet. *)
Record pool := {
  queue : list (jsstring * json);
  results : list ProbeResult;
  tested : nat;
  stdout : list jsstring;
  issued : list request;
  in_flight : nat;
  workers : list worker
}.

(** The file the script writes: [{ when, results }] (its JSON text is not
    modelled). *)
Record report := { when : jsstring; report_results : list ProbeResult }.

(** Everything outside the script that a run depends on. *)
Record world := {
  config_path : jsstring;  (* path.join(process.cwd(), 'config.json') *)
  report_path : jsstring;  (* path.join(process.cwd(), 'source-check-report.json') *)
  config_file : option (completion jsstring);
    (* [None]: no such file; otherwise what [readFileSync] returns or throws *)
  network : nat -> completion response;  (* how the n-th request ends *)
  duration : nat -> Z;     (* the time between the two [Date.now()] around it *)
  schedule : nat -> nat;   (* which suspended worker the event loop resumes next *)
  clock : jsstring;        (* [new Date().toISOString()] at the end *)
  write_report : completion unit  (* [writeFileSync] returns or throws *)
}.

(** One call of [console.error]: a line of text, or a label followed by an
    error object, which the console prints with its stack (the text of that
    is not modelled). *)
Inductive diagnostic :=
| Message (text : jsstring)
| Uncaught (label : jsstring) (e : exn).

(** What a run does to the outside. *)
Record effects := {
  out : list jsstring;            (* console.log, one element per call *)
  err : list diagnostic;          (* console.error, one element per call *)
  sent : list request;            (* calls of fetch *)
  written : option (jsstring * report)  (* writeFileSync(path, report) *)
}.

(** How [main] ends: [process.exit(code)], a return, or a throw. *)
Inductive ending :=
| Exits (code : N)
| Returns
| Throws (e : exn).

Definition decimalZ (z : Z) : jsstring :=
  if (z <? 0)%Z then js "-" ++ decimal (Z.to_N (- z)) else decimal (Z.to_N z).

Definition TEST_QUERY : jsstring := js "test".
Definition TIMEOUT_MS : N := 10000.
Definition CONCURRENCY : nat := 8.

Definition USER_AGENT : jsstring :=
  js "Mozilla/5.0 (Windows NT 10.0; Win64; x64) AppleWebKit/537.36 (KHTML, like Gecko) Chrome/122 Safari/537.36".

Section Script.
Context `{Numbers}.

(** ToBoolean on a JSON value, and on a value that may be [undefined]. *)
Definition truthy (v : json) : bool :=
  match v with
  | JNull => false
  | JBool b => b
  | JNum l => Number_truthy l
  | JStr s => match s with [] => false | _ => true end
  | JArr _ | JObj _ => true
  end.

Definition value_truthy (v : option json) : bool :=
  match v with
  | Some j => truthy j
  | None => false
  end.

(** The error of converting an object that has no callable [toString] or
    [valueOf] to a string. *)
Definition not_primitive_error : exn :=
  TypeError (js "Cannot convert object to primitive value").

(** [String(v)], and [v] in a template literal.  An array joins its
    elements with commas, [null] elements printing as nothing.  An object
    prints through [Object.prototype.toString] unless it has an own property
    [toString]: that one is not a function, [valueOf] returns the object, and
    the conversion throws. *)
Fixpoint ToString (v : json) : completion jsstring :=
  match v with
  | JNull => Normal (js "null")
  | JBool true => Normal (js "true")
  | JBool false => Normal (js "false")
  | JNum l => Normal (Number_toString l)
  | JStr s => Normal s
  | JArr es =>
      (fix join (l : list json) : completion jsstring :=
         match l with
         | [] => Normal []
         | e :: r =>
             piece ← match e with JNull => Normal [] | _ => ToString e end;
             match r with
             | [] => Normal piece
             | _ :: _ => rest ← join r; Normal (piece ++ js "," ++ rest)
             end
         end) es
  | JObj props =>
      if has_key (js "toString") props
      then Throw not_primitive_error
      else Normal (js "[object Object]")
  end.

(** Whether [String(v)] returns, and what it returns when it does. *)
Definition prints (v : json) : bool :=
  match ToString v with
  | Normal _ => true
  | Throw _ => false
  end.

Definition printed (v : json) : jsstring :=
  match ToString v with
  | Normal s => s
  | Throw _ => []
  end.

(** Lines 16-25. *)
Definition buildTestUrl (base : json) : completion jsstring :=
  s ← ToString base;
  let url := trim s in
  let sep := if includes url "?" then js "&" else js "?" in
  q ← encodeURIComponent TEST_QUERY;
  Normal (url ++ sep ++ js "ac=videolist&wd=" ++ q ++ js "&pg=1").

(** Lines 27-48.  [fetch_init] is the request the call hands to [fetch],
    with the timer that aborts it; [net] is what the network does with it. *)
Definition fetch_init (url : jsstring) (ms : N) : request :=
  {| req_url := url;
     req_method := js "GET";
     req_headers := [(js "User-Agent", USER_AGENT);
                     (js "Accept", js "application/json, text/plain;q=0.9, */*;q=0.8")];
     req_redirect := js "follow";
     req_abort_after := ms |}.

Definition fetchWithTimeout (net : request -> completion response) (url : jsstring) (ms : N)
  : completion FetchResult :=
  try_catch
    (res ← net (fetch_init url ms);
     text ← res_text res;
     Normal {| r_ok := res_ok res; r_status := res_status res;
               r_text := Some text; r_error := None |})
    (fun e =>
       Normal {| r_ok := false; r_status := 0%N; r_text := None;
                 r_error := Some (match exn_message e with
                                  | [] => exn_toString e
                                  | m => m
                                  end) |}).

(** [json && e] as a condition: [e] is evaluated only when [json] is
    truthy. *)
Definition js_and (json : json) (e : completion bool) : completion bool :=
  if truthy json then e else Normal false.

(** Lines 50-74. *)
Definition judgeResponseShape (text : jsstring) : completion judge :=
  try_catch
    (json ← JSON_parse text;
     has_list ← js_and json (l ← get json p_list; Normal (Array_isArray l));
     if has_list : bool then Normal {| j_verdict := v_ok; j_detail := js "JSON with list[]" |}
     else
       has_data ← js_and json (d ← get json p_data; Normal (Array_isArray d));
       if has_data : bool
       then Normal {| j_verdict := v_ok_maybe; j_detail := js "JSON with data[]" |}
       else
         has_code ← js_and json (c ← get json p_code;
                                 if bool_decide (c ≠ None) then Normal true
                                 else t ← get json p_total; Normal (bool_decide (t ≠ None)));
         if has_code : bool
         then Normal {| j_verdict := v_ok_maybe; j_detail := js "JSON with code/total" |}
         else Normal {| j_verdict := v_unknown; j_detail := js "JSON but unknown shape" |})
    (fun _ =>
       if startsWith (trim text) "<"
       then Normal {| j_verdict := v_xml_or_html; j_detail := js "Non-JSON response (XML/HTML)" |}
       else if (0 <? length text)%nat
       then Normal {| j_verdict := v_text; j_detail := js "Plain text response" |}
       else Normal {| j_verdict := v_empty; j_detail := js "Empty body" |}).

(** *** The worker pool, lines 98-130

    JavaScript runs each worker from one [await] to the next without
    interruption, so a run of the pool is a sequence of such blocks. *)

(** [(site && site.api) || ''] *)
Definition site_base (site : json) : completion json :=
  a ← (if truthy site then get site p_api else Normal (Some site));
  Normal (match a with
          | Some v => if truthy v then v else JStr []
          | None => JStr []
          end).

(** [x || key] for [x = site.name] *)
Definition or_else (x : option json) (d : json) : json :=
  match x with
  | Some v => if truthy v then v else d
  | None => d
  end.

Definition console_log (line : jsstring) (s : pool) : pool :=
  {| queue := queue s; results := results s; tested := tested s;
     stdout := stdout s ++ [line]; issued := issued s; in_flight := in_flight s;
     workers := workers s |}.

(** From the test of the [while] to the call of [fetch]: lines 105-110. *)
Definition worker_loop (s : pool) : pool * worker :=
  match queue s with
  | [] => (s, Returned)
  | (key, site) :: rest =>
      let s1 := {| queue := rest; results := results s; tested := tested s;
                   stdout := stdout s; issued := issued s; in_flight := in_flight s;
                   workers := workers s |} in
      match (base ← site_base site; testUrl ← buildTestUrl base; Normal (base, testUrl)) with
      | Throw e => (s1, Threw e)
      | Normal (base, testUrl) =>
          ({| queue := rest; results := results s; tested := tested s;
              stdout := stdout s;
              issued := issued s ++ [fetch_init testUrl TIMEOUT_MS];
              in_flight := S (in_flight s);
              workers := workers s |},
           Awaiting key site base testUrl (length (issued s)))
      end
  end.

(** Lines 112-121: verdict and detail from what [fetchWithTimeout] returned. *)
Definition probe_verdict (r : FetchResult) : completion (verdict * jsstring) :=
  if r_ok r then
    judge ← judgeResponseShape (match r_text r with
                                | Some (c :: t) => c :: t
                                | _ => []
                                end);
    Normal (if verdict_eqb (j_verdict judge) v_ok then v_pass else j_verdict judge,
            j_detail judge)
  else
    Normal (v_fail,
            match r_error r with
            | Some (c :: m) => c :: m
            | _ => js "HTTP " ++ decimal (r_status r)
            end).

(** Line 124, with the three string literals as the source file has them
    (U+00E2 U+0153 U+2026, U+00F0 U+0178 U+0178 U+00A1, U+00E2 U+0152). *)
Definition prefix (v : verdict) : jsstring :=
  if verdict_eqb v v_pass then [226%N; 339%N; 8230%N]
  else if verdict_eqb v v_ok_maybe then [240%N; 376%N; 376%N; 161%N]
  else [226%N; 338%N].

(** [n || 0] *)
Definition or_zero (n : N) : N := if (n =? 0)%N then 0%N else n.

(** The request of a worker has ended; [results.push(result)] with
    [tested += 1]. *)
Definition settle (s : pool) : pool :=
  {| queue := queue s; results := results s; tested := tested s; stdout := stdout s;
     issued := issued s; in_flight := pred (in_flight s); workers := workers s |}.

Definition push (result : ProbeResult) (s : pool) : pool :=
  {| queue := queue s; results := results s ++ [result]; tested := S (tested s);
     stdout := stdout s; issued := issued s; in_flight := in_flight s;
     workers := workers s |}.

(** Line 125, [name] being the text of [site.name || '']. *)
Definition progress_line (tested total : nat) (key name : jsstring)
    (r : FetchResult) (result : ProbeResult) : jsstring :=
  prefix (pr_verdict result) ++ js " [" ++ decimal (N.of_nat tested)
  ++ js "/" ++ decimal (N.of_nat total) ++ js "] " ++ key ++ js " - "
  ++ name ++ js " (" ++ decimalZ (pr_ms result) ++ js "ms) -> "
  ++ verdict_name (pr_verdict result) ++ js " "
  ++ (if (r_status r =? 0)%N then [] else decimal (r_status r))
  ++ js " " ++ pr_detail result.

(** From the end of the [await] to the next one: lines 110-126, then the
    loop again.  [net] is how the request ended, [ms] the time it took.
    The result is pushed and counted before the progress line is built, so
    a throw in the template of line 125 leaves it recorded and not printed. *)
Definition worker_resume (total : nat) (key : jsstring) (site base : json) (testUrl : jsstring)
    (net : completion response) (ms : Z) (s : pool) : pool * worker :=
  let s0 := settle s in
  match (r ← fetchWithTimeout (fun _ => net) testUrl TIMEOUT_MS;
         vd ← probe_verdict r;
         n ← get site p_name;
         Normal (r, {| pr_key := key; pr_name := or_else n (JStr key); pr_base := base;
                       pr_testUrl := testUrl; pr_verdict := fst vd;
                       pr_status := or_zero (r_status r); pr_ms := ms;
                       pr_detail := snd vd |})) with
  | Throw e => (s0, Threw e)
  | Normal (r, result) =>
      let s1 := push result s0 in
      match (n ← get site p_name; ToString (or_else n (JStr []))) with
      | Throw e => (s1, Threw e)
      | Normal name =>
          worker_loop (console_log (progress_line (tested s1) total key name r result) s1)
      end
  end.

Definition set_worker (i : nat) (w : worker) (s : pool) : pool :=
  {| queue := queue s; results := results s; tested := tested s; stdout := stdout s;
     issued := issued s; in_flight := in_flight s; workers := <[i := w]> (workers s) |}.

Definition add_worker (w : worker) (s : pool) : pool :=
  {| queue := queue s; results := results s; tested := tested s; stdout := stdout s;
     issued := issued s; in_flight := in_flight s; workers := workers s ++ [w] |}.

(** Line 129: the workers are called one after the other, each running up to
    its first [await]. *)
Fixpoint start_workers (n : nat) (s : pool) : pool :=
  match n with
  | O => s
  | S n' => let '(s', w) := worker_loop s in start_workers n' (add_worker w s')
  end.

Definition spawn (entries : list (jsstring * json)) : pool :=
  start_workers CONCURRENCY
    {| queue := entries; results := []; tested := 0; stdout := []; issued := [];
       in_flight := 0; workers := [] |}.

(** The request of worker [i] ends with [net] after [ms] milliseconds and the
    worker goes on. *)
Definition resume (total : nat) (i : nat) (net : completion response) (ms : Z) (s : pool)
  : option pool :=
  match workers s !! i with
  | Some (Awaiting key site base testUrl _) =>
      let '(s', w) := worker_resume total key site base testUrl net ms s in
      Some (set_worker i w s')
  | _ => None
  end.

Definition step (total : nat) (s s' : pool) : Prop :=
  exists i net ms, resume total i net ms s = Some s'.

Inductive reachable (entries : list (jsstring * json)) : pool -> Prop :=
| reach_spawn : reachable entries (spawn entries)
| reach_step s s' : reachable entries s -> step (length entries) s s' -> reachable entries s'.

(** [Promise.all(workers)]: fulfilled when every worker has returned. *)
Definition all_returned (s : pool) : bool :=
  forallb (fun w => match w with Returned => true | _ => false end) (workers s).

Fixpoint first_throw (ws : list worker) : option exn :=
  match ws with
  | [] => None
  | Threw e :: _ => Some e
  | _ :: rest => first_throw rest
  end.

(** *** One run of the pool under a given world

    At each turn the event loop resumes one of the suspended workers; the
    run stops when none is left or when a worker has thrown, which rejects
    [Promise.all] and ends [main]. *)
Fixpoint awaiting_from (i : nat) (ws : list worker) : list (nat * nat) :=
  match ws with
  | [] => []
  | Awaiting _ _ _ _ id :: rest => (i, id) :: awaiting_from (S i) rest
  | _ :: rest => awaiting_from (S i) rest
  end.

Definition awaiting (s : pool) : list (nat * nat) := awaiting_from 0 (workers s).

Fixpoint run_pool (w : world) (total fuel turn : nat) (s : pool) : pool :=
  match fuel with
  | O => s
  | S fuel' =>
      match first_throw (workers s), awaiting s with
      | Some _, _ => s
      | None, [] => s
      | None, a :: rest =>
          let '(i, id) := nth (schedule w turn mod length (a :: rest)) (a :: rest) a in
          match resume total i (network w id) (duration w id) s with
          | Some s' => run_pool w total fuel' (S turn) s'
          | None => s
          end
      end
  end.

Definition count_verdict (vs : list verdict) (rs : list ProbeResult) : nat :=
  length (filter (fun r => existsb (verdict_eqb (pr_verdict r)) vs) rs).

(** Lines 139-144. *)
Definition summary (rs : list ProbeResult) : list jsstring :=
  [ [10%N] ++ js "===== SUMMARY =====";
    js "PASS: " ++ decimal (N.of_nat (count_verdict [v_pass] rs));
    js "MAYBE: " ++ decimal (N.of_nat (count_verdict [v_ok_maybe] rs));
    js "XML/HTML (likely incompatible): " ++ decimal (N.of_nat (count_verdict [v_xml_or_html] rs));
    js "UNKNOWN/TEXT: " ++ decimal (N.of_nat (count_verdict [v_unknown; v_text] rs));
    js "FAIL/EMPTY: " ++ decimal (N.of_nat (count_verdict [v_fail; v_empty] rs)) ].

Definition no_effects : effects := {| out := []; err := []; sent := []; written := None |}.

(** Lines 89-90: [cfg && cfg.api_site ? cfg.api_site : {}] and its entries. *)
Definition configured (cfg : json) : completion (list (jsstring * json)) :=
  has_sites ← (if truthy cfg then a ← get cfg p_api_site; Normal (value_truthy a)
               else Normal false);
  sites ← (if has_sites : bool
           then a ← get cfg p_api_site; Normal (default (JObj []) a)
           else Normal (JObj []));
  Object_entries sites.

(** Lines 76-150.  [None] would be a pool that never settles; [main_ends]
    shows there is no such run. *)
Definition main (w : world) : option (effects * ending) :=
  match config_file w with
  | None =>
      Some ({| out := []; err := [Message (js "config.json not found at " ++ config_path w)];
               sent := []; written := None |}, Exits 1)
  | Some (Throw e) => Some (no_effects, Throws e)
  | Some (Normal raw) =>
      match JSON_parse raw with
      | Throw e =>
          Some ({| out := [];
                   err := [Message (js "Failed to parse config.json: " ++ exn_message e)];
                   sent := []; written := None |}, Exits 1)
      | Normal cfg =>
          match configured cfg with
          | Throw e => Some (no_effects, Throws e)
          | Normal [] =>
              Some ({| out := [js "No api_site entries found."]; err := [];
                       sent := []; written := None |}, Returns)
          | Normal entries =>
              let banner := js "Testing " ++ decimal (N.of_nat (length entries))
                            ++ js " sources (GET only, timeout " ++ decimal TIMEOUT_MS
                            ++ js "ms)..." ++ [10%N] in
              let s := run_pool w (length entries) (length entries) 0 (spawn entries) in
              match first_throw (workers s) with
              | Some e =>
                  Some ({| out := banner :: stdout s; err := []; sent := issued s;
                           written := None |}, Throws e)
              | None =>
                  if all_returned s then
                    let lines := banner :: stdout s ++ summary (results s) in
                    match write_report w with
                    | Throw e =>
                        Some ({| out := lines; err := []; sent := issued s; written := None |},
                              Throws e)
                    | Normal _ =>
                        Some ({| out := lines ++ [[10%N] ++ js "Report saved to " ++ report_path w];
                                 err := []; sent := issued s;
                                 written := Some (report_path w,
                                                  {| when := clock w;
                                                     report_results := results s |}) |},
                              Returns)
                    end
                  else None
              end
          end
      end
  end.

(** Lines 152-155 and the end of the process: the exit status. *)
Definition exit_code (e : ending) : N :=
  match e with
  | Exits code => code
  | Returns => 0
  | Throws _ => 1
  end.

Definition node (w : world) : option (effects * N) :=
  match main w with
  | Some (fx, Throws e) =>
      Some ({| out := out fx; err := err fx ++ [Uncaught (js "Unexpected error:") e];
               sent := sent fx; written := written fx |}, 1%N)
  | Some (fx, e) => Some (fx, exit_code e)
  | None => None
  end.

(** ** The specification's terms, and what the proofs need to say *)

(** "The parsed value has an array-valued field [k]", "has a field [k]". *)
Definition has_array_field (k : jsstring) (v : json) : bool :=
  match v with
  | JObj props => match own_property k props with Some (JArr _) => true | _ => false end
  | _ => false
  end.

Definition has_field (k : jsstring) (v : json) : bool :=
  match v with
  | JObj props => match own_property k props with Some _ => true | None => false end
  | _ => false
  end.

(** The classification the specification gives for a body that parses. *)
Definition shape_of (v : json) : judge :=
  if has_array_field (js "list") v
  then {| j_verdict := v_ok; j_detail := js "JSON with list[]" |}
  else if has_array_field (js "data") v
  then {| j_verdict := v_ok_maybe; j_detail := js "JSON with data[]" |}
  else if has_field (js "code") v || has_field (js "total") v
  then {| j_verdict := v_ok_maybe; j_detail := js "JSON with code/total" |}
  else {| j_verdict := v_unknown; j_detail := js "JSON but unknown shape" |}.

(** The message a failed request is reported with: [e.message], or
    [String(e)] for an error without one. *)
Definition error_text (e : exn) : jsstring :=
  match exn_message e with
  | [] => exn_toString e
  | m => m
  end.

Definition failure (e : exn) : FetchResult :=
  {| r_ok := false; r_status := 0%N; r_text := None; r_error := Some (error_text e) |}.

(** The base URL of a site, the test URL of a base that prints and the
    request of an entry, as values. *)
Definition base_of (site : json) : json :=
  match site with
  | JObj props => or_else (own_property (js "api") props) (JStr [])
  | _ => JStr []
  end.

Definition test_url (base : json) : jsstring :=
  trim (printed base)
  ++ (if includes (trim (printed base)) "?" then js "&" else js "?")
  ++ js "ac=videolist&wd=test&pg=1".

Definition request_of (e : jsstring * json) : request :=
  fetch_init (test_url (base_of (snd e))) TIMEOUT_MS.

(** The entries whose requests are under way. *)
Fixpoint awaiting_entries (ws : list worker) : list (jsstring * json) :=
  match ws with
  | [] => []
  | Awaiting key site _ _ _ :: rest => (key, site) :: awaiting_entries rest
  | _ :: rest => awaiting_entries rest
  end.

Definition no_throw (ws : list worker) : bool :=
  forallb (fun w => match w with Threw _ => false | _ => true end) ws.

(** The value of the [name] field of a site, if it has one. *)
Definition name_of (site : json) : option json :=
  match site with
  | JObj props => own_property (js "name") props
  | _ => None
  end.

(** An entry whose request can be sent: its base prints.  An entry that a
    worker can handle without throwing: it is not [null], and its base and
    its name print. *)
Definition startable (e : jsstring * json) : bool := prints (base_of (snd e)).

Definition entry_ok (e : jsstring * json) : Prop :=
  snd e <> JNull
  /\ prints (base_of (snd e)) = true
  /\ prints (or_else (name_of (snd e)) (JStr [])) = true.

(** A result is the record of an entry, which a worker has handled without
    throwing. *)
Definition recorded (e : jsstring * json) (r : ProbeResult) : Prop :=
  pr_key r = fst e /\ pr_base r = base_of (snd e) /\ pr_testUrl r = test_url (base_of (snd e))
  /\ buildTestUrl (base_of (snd e)) = Normal (pr_testUrl r)
  /\ entry_ok e.

Definition worker_ok (w : worker) : Prop :=
  match w with
  | Awaiting _ site base testUrl _ =>
      base = base_of site /\ testUrl = test_url base /\ buildTestUrl base = Normal testUrl
  | _ => True
  end.

(** What holds of the shared variables and of a list [ws] of workers at
    every [await]: the queue is what is left of the entries, one request
    was sent for every entry taken whose base prints, in the order taken,
    and as long as no worker has thrown every entry taken is either recorded
    or under way. *)
Record pool_inv (entries : list (jsstring * json)) (s : pool) (ws : list worker) : Prop := {
  inv_taken :
    exists taken,
      entries = taken ++ queue s
      /\ issued s = map request_of (List.filter startable taken)
      /\ (no_throw ws = true ->
          exists done, done ++ awaiting_entries ws ≡ₚ taken /\ Forall2 recorded done (results s));
  inv_flight : in_flight s = length (awaiting_entries ws);
  inv_returned : In Returned ws -> queue s = [];
  inv_workers : Forall worker_ok ws;
  inv_sites : Forall (fun e => In e entries) (awaiting_entries ws)
}.

(** What [fetchWithTimeout] returns for an ended request. *)
Definition fetch_result (net : completion response) : FetchResult :=
  match net with
  | Throw e => failure e
  | Normal res =>
      match res_text res with
      | Throw e => failure e
      | Normal t => {| r_ok := res_ok res; r_status := res_status res;
                       r_text := Some t; r_error := None |}
      end
  end.

(** The measure of what is left to do. *)
Definition remaining (s : pool) : nat :=
  length (queue s) + length (awaiting_entries (workers s)).

(** The value of the [api_site] field of a configuration, if it has one. *)
Definition api_site_of (cfg : json) : option json :=
  match cfg with
  | JObj props => own_property (js "api_site") props
  | _ => None
  end.

(** The error of reading [name] from [null]. *)
Definition null_name_error : exn :=
  TypeError (js "Cannot read properties of null (reading 'name')").

(** A configuration with an entry that is [null]. *)
Definition null_site_config : jsstring := json_text "{'api_site':{'a':null}}".

(** What a run with nothing to probe does. *)
Definition no_entries : effects :=
  {| out := [js "No api_site entries found."]; err := []; sent := []; written := None |}.

(** A world to run examples in: the configuration file holds [config],
    every request ends with [net], the workers resume in turn. *)
Definition example_world (config : jsstring) (net : completion response) : world :=
  {| config_path := js "/app/config.json";
     report_path := js "/app/source-check-report.json";
     config_file := Some (Normal config);
     network := fun _ => net;
     duration := fun _ => 25%Z;
     schedule := fun _ => 0;
     clock := js "2025-01-01T00:00:00.000Z";
     write_report := Normal tt |}.

(** A configuration with two sites. *)
Definition two_sites_config : jsstring :=
  json_text "{'api_site':{'a':{'api':'http://a.example/api.php/provide/vod','name':'A'},'b':{'api':'http://b.example/vod?x=1'}}}".

Definition two_sites : json :=
  JObj [(js "api_site",
         JObj [(js "a", JObj [(js "api", JStr (js "http://a.example/api.php/provide/vod"));
                              (js "name", JStr (js "A"))]);
               (js "b", JObj [(js "api", JStr (js "http://b.example/vod?x=1"))])])].

(** Nine entries, one more than there are workers. *)
Definition nine_entries : list (jsstring * json) :=
  map (fun k => (js k, JObj [(js "api", JStr (js "http://example.com/api.php/provide/vod"));
                             (js "name", JStr (js k))]))
      ["s1"; "s2"; "s3"; "s4"; "s5"; "s6"; "s7"; "s8"; "s9"]%string.

(** ** Further terms: the summary, the site without a base *)

(** The five numbers of the summary, added up. *)
Definition bucket_total (rs : list ProbeResult) : nat :=
  count_verdict [v_pass] rs + count_verdict [v_ok_maybe] rs
  + count_verdict [v_xml_or_html] rs + count_verdict [v_unknown; v_text] rs
  + count_verdict [v_fail; v_empty] rs.

(** The value of the [api] field of a site, if it has one. *)
Definition api_of (site : json) : option json :=
  match site with
  | JObj props => own_property (js "api") props
  | _ => None
  end.

(** [r.text || ''] *)
Definition text_or_empty (r : FetchResult) : jsstring :=
  match r_text r with
  | Some (c :: t) => c :: t
  | _ => []
  end.

(** The query every test URL ends with. *)
Definition QUERY : jsstring := js "ac=videolist&wd=test&pg=1".

(** [s] ends with [t]. *)
Definition endsWith (s t : jsstring) : Prop := exists p, s = p ++ t.

(** A result is the record of an entry, name included; its test URL is
    what [buildTestUrl] returned for the base of the entry. *)
Definition record_of (e : jsstring * json) (r : ProbeResult) : Prop :=
  pr_key r = fst e
  /\ pr_name r = or_else (name_of (snd e)) (JStr (fst e))
  /\ pr_base r = base_of (snd e)
  /\ pr_testUrl r = test_url (base_of (snd e))
  /\ buildTestUrl (base_of (snd e)) = Normal (pr_testUrl r).

(** The pool of [nine_entries] after the first request has timed out. *)
Definition nine_after_one : pool :=
  match resume 9 0 (Throw AbortError) 25 (spawn nine_entries) with
  | Some s => s
  | None => spawn nine_entries
  end.

(** Configurations with one site whose [api], or whose [name], is an object
    with a property [toString]. *)
Definition unprintable_base_config : jsstring :=
  json_text "{'api_site':{'a':{'api':{'toString':1},'name':'A'}}}".

Definition unprintable_name_config : jsstring :=
  json_text "{'api_site':{'a':{'api':'http://a.example/vod','name':{'toString':1}}}}".

(** Nine entries the first of which has such an [api]. *)
Definition nine_entries_one_unprintable : list (jsstring * json) :=
  (js "s0", JObj [(js "api", JObj [(js "toString", JNum (js "1"))])]) :: tl nine_entries.

(** A world without a configuration file. *)
Definition world_without_config : world :=
  {| config_path := js "/app/config.json";
     report_path := js "/app/source-check-report.json";
     config_file := None;
     network := fun _ => Throw AbortError;
     duration := fun _ => 25%Z;
     schedule := fun _ => 0;
     clock := js "2025-01-01T00:00:00.000Z";
     write_report := Normal tt |}.

(** * Properties *)

(** ** Strings *)

Lemma trimStart_split (s : jsstring) :
  exists l, s = l ++ trimStart s /\ forallb is_trim_space l = true.
Proof.
  induction s as [|c s IH]; simpl.
  - exists []. auto.
  - destruct (is_trim_space c) eqn:E.
    + destruct IH as [l [Hl Hs]]. exists (c :: l). simpl. rewrite E, Hs.
      split; [congruence | reflexivity].
    + exists []. auto.
Qed.

Lemma trimStart_head (s : jsstring) c t :
  trimStart s = c :: t -> is_trim_space c = false.
Proof.
  induction s as [|a s IH]; simpl; [discriminate|].
  destruct (is_trim_space a) eqn:E; [exact IH|].
  intros [= -> _]. exact E.
Qed.

Lemma trimEnd_split (s : jsstring) :
  exists r, s = trimEnd s ++ r /\ forallb is_trim_space r = true.
Proof.
  unfold trimEnd. destruct (trimStart_split (rev s)) as [l [Hl Hs]].
  exists (rev l). split.
  - rewrite <- rev_app_distr, <- Hl. symmetry. apply rev_involutive.
  - rewrite forallb_forall in *. intros x Hx. apply Hs. apply in_rev in Hx. exact Hx.
Qed.

Lemma trimEnd_last (s t : jsstring) c :
  trimEnd s = t ++ [c] -> is_trim_space c = false.
Proof.
  unfold trimEnd. intros E.
  apply (f_equal (@rev _)) in E. rewrite rev_involutive, rev_app_distr in E. simpl in E.
  eapply trimStart_head. exact E.
Qed.

Lemma trimEnd_head (s : jsstring) c t :
  trimEnd s = c :: t -> exists t', s = c :: t'.
Proof.
  intros E. destruct (trimEnd_split s) as [r [Hr _]].
  exists (t ++ r). rewrite Hr at 1. rewrite E. reflexivity.
Qed.

(** [trim s] is [s] without a prefix and a suffix of white space, and it
    neither starts nor ends with white space. *)
Lemma trim_spec (s : jsstring) :
  exists l r,
    s = l ++ trim s ++ r
    /\ forallb is_trim_space l = true /\ forallb is_trim_space r = true
    /\ (forall c t, trim s = c :: t -> is_trim_space c = false)
    /\ (forall c t, trim s = t ++ [c] -> is_trim_space c = false).
Proof.
  unfold trim.
  destruct (trimStart_split s) as [l [Hl Hls]].
  destruct (trimEnd_split (trimStart s)) as [r [Hr Hrs]].
  exists l, r. repeat split; auto.
  - rewrite <- Hr. exact Hl.
  - intros c t E. destruct (trimEnd_head _ _ _ E) as [t' E'].
    eapply trimStart_head. exact E'.
  - intros c t E. eapply trimEnd_last. exact E.
Qed.

Lemma encode_TEST_QUERY : encodeURIComponent TEST_QUERY = Normal (js "test").
Proof. reflexivity. Qed.

(** ** [JSON.parse]: the fuel is enough

    Every parser gives back less than it was given, so a recursive call is
    always on a shorter text and [JSON_parse] never runs out of fuel. *)

Lemma skip_ws_length (s : jsstring) : length (skip_ws s) <= length s.
Proof.
  induction s as [|c s IH]; simpl; [lia|].
  destruct (is_json_space c); simpl; lia.
Qed.

Lemma take_digits_length (s d r : jsstring) :
  take_digits s = (d, r) -> length s = length d + length r.
Proof.
  revert d r. induction s as [|c s IH]; simpl; intros d r.
  - intros [= <- <-]. reflexivity.
  - destruct (is_digit c).
    + destruct (take_digits s) as [d' r'] eqn:E. intros [= <- <-].
      simpl. rewrite (IH d' r' eq_refl). reflexivity.
    + intros [= <- <-]. reflexivity.
Qed.

Lemma take_optional_length (a b : ascii) (s o r : jsstring) :
  take_optional a b s = (o, r) -> length r <= length s.
Proof.
  unfold take_optional. destruct s as [|c s]; [intros [= _ <-]; lia|].
  destruct (char_is c a || char_is c b); intros [= _ <-]; simpl; lia.
Qed.

Lemma parse_int_length (s i r : jsstring) :
  parse_int s = Parsed i r -> length r < length s.
Proof.
  unfold parse_int. destruct s as [|c s]; [discriminate|].
  destruct (char_is c "0"); [intros [= _ <-]; simpl; lia|].
  destruct (is_digit c); [|discriminate].
  destruct (take_digits s) as [d r'] eqn:E. intros [= _ <-].
  apply take_digits_length in E. simpl. lia.
Qed.

Lemma parse_frac_length (s f r : jsstring) :
  parse_frac s = Parsed f r -> length r <= length s.
Proof.
  unfold parse_frac. destruct s as [|c s]; [intros [= _ <-]; lia|].
  destruct (char_is c "."); [|intros [= _ <-]; lia].
  destruct (take_digits s) as [[|d0 d] r'] eqn:E; [discriminate|].
  intros [= _ <-]. apply take_digits_length in E. simpl. lia.
Qed.

Lemma parse_exp_length (s e r : jsstring) :
  parse_exp s = Parsed e r -> length r <= length s.
Proof.
  unfold parse_exp. destruct s as [|c s]; [intros [= _ <-]; lia|].
  destruct (char_is c "e" || char_is c "E"); [|intros [= _ <-]; lia].
  destruct (take_optional "+" "-" s) as [sign r1] eqn:Es.
  apply take_optional_length in Es.
  destruct (take_digits r1) as [[|d0 d] r'] eqn:E; [discriminate|].
  intros [= _ <-]. apply take_digits_length in E. simpl. lia.
Qed.

Lemma parse_number_length (s l r : jsstring) :
  parse_number s = Parsed l r -> length r < length s.
Proof.
  unfold parse_number.
  destruct (take_optional "-" "-" s) as [m s1] eqn:Em.
  apply take_optional_length in Em.
  destruct (parse_int s1) as [i s2| |] eqn:Ei; try discriminate.
  destruct (parse_frac s2) as [f s3| |] eqn:Ef; try discriminate.
  destruct (parse_exp s3) as [e s4| |] eqn:Ee; try discriminate.
  intros [= _ <-].
  apply parse_int_length in Ei. apply parse_frac_length in Ef. apply parse_exp_length in Ee.
  lia.
Qed.

Lemma parse_number_fuel (s : jsstring) : parse_number s <> OutOfFuel.
Proof.
  unfold parse_number.
  destruct (take_optional "-" "-" s) as [m s1].
  destruct (parse_int s1) as [i s2| |]; try discriminate.
  destruct (parse_frac s2) as [f s3| |]; try discriminate.
  destruct (parse_exp s3) as [e s4| |]; discriminate.
Qed.

Lemma parse_chars_sound (n : nat) (s : jsstring) :
  length s <= n ->
  parse_chars s <> OutOfFuel
  /\ (forall t r, parse_chars s = Parsed t r -> length r < length s).
Proof.
  revert s. induction n as [|n IH]; intros s Hlen.
  - destruct s; [|simpl in Hlen; lia]. split; [discriminate|]. intros t r [=].
  - destruct s as [|c s]; [split; [discriminate|intros t r [=]]|].
    simpl in Hlen. simpl.
    destruct (N.eqb c quote); [split; [discriminate|intros t r [= _ <-]; simpl; lia]|].
    destruct (N.eqb c backslash).
    + destruct s as [|e r1]; [split; [discriminate|intros t r [=]]|].
      simpl in Hlen. destruct (char_is e "u").
      * destruct r1 as [|h1 [|h2 [|h3 [|h4 r2]]]];
          try (split; [discriminate|intros t r [=]]).
        simpl in Hlen.
        destruct (hex_value h1), (hex_value h2), (hex_value h3), (hex_value h4);
          try (split; [discriminate|intros t r [=]]).
        destruct (IH r2 ltac:(lia)) as [Hf Hl].
        destruct (parse_chars r2) as [t' r'| |] eqn:E; [|split; [discriminate|intros t r [=]]|tauto].
        split; [discriminate|]. intros t r [= _ <-].
        specialize (Hl _ _ eq_refl). simpl. lia.
      * destruct (simple_escape e); [|split; [discriminate|intros t r [=]]].
        destruct (IH r1 ltac:(lia)) as [Hf Hl].
        destruct (parse_chars r1) as [t' r'| |] eqn:E; [|split; [discriminate|intros t r [=]]|tauto].
        split; [discriminate|]. intros t r [= _ <-].
        specialize (Hl _ _ eq_refl). simpl. lia.
    + destruct (c <? 32)%N; [split; [discriminate|intros t r [=]]|].
      destruct (IH s ltac:(lia)) as [Hf Hl].
      destruct (parse_chars s) as [t' r'| |] eqn:E; [|split; [discriminate|intros t r [=]]|tauto].
      split; [discriminate|]. intros t r [= _ <-].
      specialize (Hl _ _ eq_refl). simpl. lia.
Qed.

Lemma strip_prefix_length (p s r : jsstring) :
  strip_prefix p s = Some r -> length s = length p + length r.
Proof.
  revert s. induction p as [|a p IH]; intros s; simpl.
  - intros [= <-]. reflexivity.
  - destruct s as [|b s]; [discriminate|]. destruct (N.eqb a b); [|discriminate].
    intros E. simpl. rewrite (IH _ E). reflexivity.
Qed.

Lemma parse_literal_sound (s : jsstring) :
  parse_literal s <> OutOfFuel
  /\ (forall v r, parse_literal s = Parsed v r -> length r < length s).
Proof.
  unfold parse_literal.
  destruct (strip_prefix (js "true") s) eqn:E1;
    [|destruct (strip_prefix (js "false") s) eqn:E2;
       [|destruct (strip_prefix (js "null") s) eqn:E3]];
    (split; [discriminate|]); intros v r [=]; subst.
  - apply strip_prefix_length in E1. simpl in E1. lia.
  - apply strip_prefix_length in E2. simpl in E2. lia.
  - apply strip_prefix_length in E3. simpl in E3. lia.
Qed.

Lemma skip_ws_cons (s : jsstring) c r : skip_ws s = c :: r -> length r < length s.
Proof. intros E. pose proof (skip_ws_length s) as Hl. rewrite E in Hl. simpl in Hl. lia. Qed.

Lemma parse_sound (fuel : nat) :
  (forall s,
      (forall v r, parse_value fuel s = Parsed v r -> length r < length s)
      /\ (2 * length s < fuel -> parse_value fuel s <> OutOfFuel))
  /\ (forall acc s,
        (forall v r, parse_elements fuel acc s = Parsed v r -> length r < length s)
        /\ (2 * length s + 1 < fuel -> parse_elements fuel acc s <> OutOfFuel))
  /\ (forall acc s,
        (forall v r, parse_members fuel acc s = Parsed v r -> length r < length s)
        /\ (2 * length s + 1 < fuel -> parse_members fuel acc s <> OutOfFuel)).
Proof.
  induction fuel as [|n (IHv & IHe & IHm)].
  { repeat split; simpl; try discriminate; lia. }
  split; [|split].
  - intros s. cbn [parse_value].
    destruct (skip_ws s) as [|c r] eqn:Es; [split; [discriminate|discriminate]|].
    apply skip_ws_cons in Es.
    destruct (char_is c "{").
    { destruct (skip_ws r) as [|c' r'] eqn:Er; [split; discriminate|].
      apply skip_ws_cons in Er.
      destruct (char_is c' "}"); [split; [intros v r0 [= _ <-]; lia|discriminate]|].
      destruct (IHm [] r) as [Hl Hf]. split.
      - intros v r0 E. specialize (Hl _ _ E). lia.
      - intros Hfuel. apply Hf. lia. }
    destruct (char_is c "[").
    { destruct (skip_ws r) as [|c' r'] eqn:Er; [split; discriminate|].
      apply skip_ws_cons in Er.
      destruct (char_is c' "]"); [split; [intros v r0 [= _ <-]; lia|discriminate]|].
      destruct (IHe [] r) as [Hl Hf]. split.
      - intros v r0 E. specialize (Hl _ _ E). lia.
      - intros Hfuel. apply Hf. lia. }
    destruct (N.eqb c quote).
    { destruct (parse_chars_sound (length r) r (le_n _)) as [Hf Hl].
      destruct (parse_chars r) as [t r'| |] eqn:E; [|split; discriminate|tauto].
      specialize (Hl _ _ eq_refl). split; [intros v r0 [= _ <-]; lia|discriminate]. }
    destruct (char_is c "-" || is_digit c).
    { pose proof (parse_number_fuel (c :: r)) as Hf.
      destruct (parse_number (c :: r)) as [l r'| |] eqn:E; [|split; discriminate|tauto].
      apply parse_number_length in E. simpl in E.
      split; [intros v r0 [= _ <-]; lia|discriminate]. }
    destruct (parse_literal_sound (c :: r)) as [Hf Hl]. split; [|intros _; exact Hf].
    intros v r0 E. specialize (Hl _ _ E). simpl in Hl. lia.
  - intros acc s. cbn [parse_elements].
    destruct (IHv s) as [Hl Hf].
    destruct (parse_value n s) as [v r| |] eqn:E;
      [|split; discriminate|split; [discriminate|intros Hfuel _; apply Hf; [lia|reflexivity]]].
    specialize (Hl _ _ eq_refl).
    destruct (skip_ws r) as [|c r'] eqn:Er; [split; discriminate|].
    apply skip_ws_cons in Er.
    destruct (char_is c ",").
    { destruct (IHe (v :: acc) r') as [Hl' Hf']. split.
      - intros v0 r0 E0. specialize (Hl' _ _ E0). lia.
      - intros Hfuel. apply Hf'. lia. }
    destruct (char_is c "]"); split; try discriminate.
    intros v0 r0 [= _ <-]. lia.
  - intros acc s. cbn [parse_members].
    destruct (skip_ws s) as [|q r0] eqn:Es; [split; discriminate|].
    apply skip_ws_cons in Es.
    destruct (N.eqb q quote); [|split; discriminate].
    destruct (parse_chars_sound (length r0) r0 (le_n _)) as [Hfc Hlc].
    destruct (parse_chars r0) as [k r1| |] eqn:Ec; [|split; discriminate|tauto].
    specialize (Hlc _ _ eq_refl).
    destruct (skip_ws r1) as [|colon r2] eqn:E1; [split; discriminate|].
    apply skip_ws_cons in E1.
    destruct (char_is colon ":"); [|split; discriminate].
    destruct (IHv r2) as [Hl Hf].
    destruct (parse_value n r2) as [v r3| |] eqn:E;
      [|split; discriminate|split; [discriminate|intros Hfuel _; apply Hf; [lia|reflexivity]]].
    specialize (Hl _ _ eq_refl).
    destruct (skip_ws r3) as [|c r'] eqn:E3; [split; discriminate|].
    apply skip_ws_cons in E3.
    destruct (char_is c ",").
    { destruct (IHm (define_property k v acc) r') as [Hl' Hf']. split.
      - intros v0 r4 E0. specialize (Hl' _ _ E0). lia.
      - intros Hfuel. apply Hf'. lia. }
    destruct (char_is c "}"); split; try discriminate.
    intros v0 r4 [= _ <-]. lia.
Qed.

(** [JSON.parse] throws for texts that are not JSON only: its parser has
    fuel to spare. *)
Lemma parse_value_fuel (text : jsstring) :
  parse_value (2 * length text + 1) text <> OutOfFuel.
Proof.
  destruct (parse_sound (2 * length text + 1)) as (Hv & _). apply Hv. lia.
Qed.

Lemma JSON_parse_fuel (text : jsstring) :
  JSON_parse text <> Throw (SyntaxError (js "out of fuel")).
Proof.
  unfold JSON_parse. pose proof (parse_value_fuel text) as Hf.
  destruct (parse_value (2 * length text + 1) text) as [v rest| |]; [|discriminate|tauto].
  destruct (skip_ws rest); discriminate.
Qed.

(** ** [JSON.parse]: no object has a key twice *)

Lemma jsstring_eqb_eq (a b : jsstring) : jsstring_eqb a b = true <-> a = b.
Proof.
  revert b. induction a as [|x a IH]; intros [|y b]; simpl; split; try congruence.
  - intros E. apply andb_true_iff in E as [E1 E2].
    apply N.eqb_eq in E1. apply IH in E2. congruence.
  - intros [= -> ->]. rewrite N.eqb_refl. apply IH. reflexivity.
Qed.

Lemma has_key_In (k : jsstring) (props : list (jsstring * json)) :
  has_key k props = true <-> In k (map fst props).
Proof.
  unfold has_key. rewrite existsb_exists, in_map_iff. split.
  - intros ([k' v] & Hin & E). apply jsstring_eqb_eq in E. exists (k', v). auto.
  - intros ([k' v] & E & Hin). exists (k', v). split; [exact Hin|].
    apply jsstring_eqb_eq. simpl in *. congruence.
Qed.

Lemma overwrite_keys (k : jsstring) (v : json) (props : list (jsstring * json)) :
  map fst (overwrite k v props) = map fst props.
Proof.
  induction props as [|[k' v'] rest IH]; [reflexivity|]. simpl.
  destruct (jsstring_eqb k k') eqn:E; simpl; [|rewrite IH; reflexivity].
  apply jsstring_eqb_eq in E. congruence.
Qed.

Lemma overwrite_values (P : json -> Prop) k v (props : list (jsstring * json)) :
  P v -> Forall (fun p => P (snd p)) props -> Forall (fun p => P (snd p)) (overwrite k v props).
Proof.
  intros Hv. induction 1 as [|[k' v'] rest Hp Hrest IH]; [constructor|]. simpl.
  destruct (jsstring_eqb k k'); constructor; auto.
Qed.

Lemma add_index_keys i (k : jsstring) (v : json) (props : list (jsstring * json)) :
  map fst (add_index i k v props) ≡ₚ k :: map fst props.
Proof.
  induction props as [|[k' v'] rest IH]; [reflexivity|]. simpl.
  destruct (array_index k') as [i'|]; [|reflexivity].
  destruct (i <? i')%N; [reflexivity|]. simpl. rewrite IH. apply perm_swap.
Qed.

Lemma add_index_values (P : json -> Prop) i k v (props : list (jsstring * json)) :
  P v -> Forall (fun p => P (snd p)) props ->
  Forall (fun p => P (snd p)) (add_index i k v props).
Proof.
  intros Hv. induction 1 as [|[k' v'] rest Hp Hrest IH]; [repeat constructor; exact Hv|].
  simpl. destruct (array_index k') as [i'|]; [destruct (i <? i')%N|];
    repeat constructor; auto.
Qed.

Lemma define_property_distinct k v (props : list (jsstring * json)) :
  distinct_keys v -> distinct_keys (JObj props) ->
  distinct_keys (JObj (define_property k v props)).
Proof.
  intros Hv Hobj. inversion Hobj as [| | | | |? Hnd Hall]; subst.
  unfold define_property. destruct (has_key k props) eqn:Hk.
  - constructor; [rewrite overwrite_keys; exact Hnd | apply overwrite_values; assumption].
  - assert (Hnew : ~ In k (map fst props)).
    { intros Hin. apply has_key_In in Hin. congruence. }
    destruct (array_index k) as [i|].
    + constructor; [|apply add_index_values; assumption].
      rewrite add_index_keys. apply NoDup_cons. split; [|exact Hnd].
      rewrite list_elem_of_In. exact Hnew.
    + constructor.
      * rewrite map_app. simpl. apply NoDup_app. split; [exact Hnd|]. split.
        -- intros x Hx Hx'. apply list_elem_of_In in Hx.
           apply list_elem_of_In in Hx' as [<-|[]]. auto.
        -- apply NoDup_singleton.
      * apply Forall_app. split; [exact Hall|]. repeat constructor. exact Hv.
Qed.

Lemma parse_distinct (fuel : nat) :
  (forall s v r, parse_value fuel s = Parsed v r -> distinct_keys v)
  /\ (forall acc s v r,
        Forall distinct_keys acc -> parse_elements fuel acc s = Parsed v r -> distinct_keys v)
  /\ (forall acc s v r,
        distinct_keys (JObj acc) -> parse_members fuel acc s = Parsed v r -> distinct_keys v).
Proof.
  induction fuel as [|n (IHv & IHe & IHm)]; [repeat split; discriminate|].
  split; [|split].
  - intros s v r. cbn [parse_value].
    destruct (skip_ws s) as [|c r0]; [discriminate|].
    destruct (char_is c "{").
    { destruct (skip_ws r0) as [|c' r']; [discriminate|].
      destruct (char_is c' "}").
      - intros [= <- _]. constructor; constructor.
      - apply IHm. constructor; constructor. }
    destruct (char_is c "[").
    { destruct (skip_ws r0) as [|c' r']; [discriminate|].
      destruct (char_is c' "]").
      - intros [= <- _]. constructor; constructor.
      - apply IHe. constructor. }
    destruct (N.eqb c quote).
    { destruct (parse_chars r0); intros [= <- _]. constructor. }
    destruct (char_is c "-" || is_digit c).
    { destruct (parse_number (c :: r0)); intros [= <- _]. constructor. }
    unfold parse_literal.
    destruct (strip_prefix (js "true") (c :: r0)); [intros [= <- _]; constructor|].
    destruct (strip_prefix (js "false") (c :: r0)); [intros [= <- _]; constructor|].
    destruct (strip_prefix (js "null") (c :: r0)); [intros [= <- _]; constructor|discriminate].
  - intros acc s v r Hacc. cbn [parse_elements].
    destruct (parse_value n s) as [v0 r0| |] eqn:E; try discriminate.
    apply IHv in E.
    destruct (skip_ws r0) as [|c r']; [discriminate|].
    destruct (char_is c ","); [apply IHe; constructor; assumption|].
    destruct (char_is c "]"); [|discriminate].
    intros [= <- _]. constructor. simpl. apply Forall_app. split.
    + apply Forall_rev. exact Hacc.
    + repeat constructor. exact E.
  - intros acc s v r Hacc. cbn [parse_members].
    destruct (skip_ws s) as [|q r0]; [discriminate|].
    destruct (N.eqb q quote); [|discriminate].
    destruct (parse_chars r0) as [k r1| |]; try discriminate.
    destruct (skip_ws r1) as [|colon r2]; [discriminate|].
    destruct (char_is colon ":"); [|discriminate].
    destruct (parse_value n r2) as [v0 r3| |] eqn:E; try discriminate.
    apply IHv in E.
    destruct (skip_ws r3) as [|c r']; [discriminate|].
    pose proof (define_property_distinct k v0 acc E Hacc) as Hdef.
    destruct (char_is c ","); [apply IHm; exact Hdef|].
    destruct (char_is c "}"); [|discriminate].
    intros [= <- _]. exact Hdef.
Qed.

Lemma JSON_parse_distinct (text : jsstring) (v : json) :
  JSON_parse text = Normal v -> distinct_keys v.
Proof.
  unfold JSON_parse.
  destruct (parse_value _ text) as [v0 rest| |] eqn:E; try discriminate.
  destruct (skip_ws rest); [|discriminate]. intros [= <-].
  eapply (proj1 (parse_distinct _)). exact E.
Qed.

Lemma uint_digits_inj (d d' : Decimal.uint) : uint_digits d = uint_digits d' -> d = d'.
Proof.
  revert d'. induction d; intros d'; destruct d'; simpl; try discriminate;
    try reflexivity; intros [= E]; f_equal; auto.
Qed.

Lemma decimal_inj (n m : N) : decimal n = decimal m -> n = m.
Proof.
  unfold decimal. intros E. apply uint_digits_inj in E.
  apply DecimalN.Unsigned.to_uint_inj. exact E.
Qed.

Lemma indexed_keys {A} (f : A -> json) (i : nat) (l : list A) :
  map fst (indexed f i l) = map (fun j => decimal (N.of_nat j)) (seq i (length l)).
Proof.
  revert i. induction l as [|x l IH]; intros i; [reflexivity|].
  simpl. rewrite IH. reflexivity.
Qed.

Lemma indexed_distinct {A} (f : A -> json) (l : list A) :
  NoDup (map fst (indexed f 0 l)).
Proof.
  rewrite indexed_keys.
  assert (Hinj : Inj (=) (=) (fun j => decimal (N.of_nat j))).
  { intros a b E. apply decimal_inj in E. lia. }
  apply (NoDup_fmap_2 _). apply NoDup_seq.
Qed.

Lemma own_property_In (k : jsstring) (props : list (jsstring * json)) v :
  own_property k props = Some v -> exists k', In (k', v) props.
Proof.
  induction props as [|[k' v'] rest IH]; [discriminate|]. simpl.
  destruct (jsstring_eqb k k').
  - intros [= <-]. exists k'. auto.
  - intros E. destruct (IH E) as [k'' Hin]. exists k''. auto.
Qed.

(** ** [buildTestUrl] *)

(** C4.  For every base string, [buildTestUrl] takes the base without its
    leading and trailing white space and appends the query
    [ac=videolist&wd=test&pg=1] to it, after [?] when the trimmed base has no
    [?] and after [&] when it has one; the base of the specification's
    example gives the URL stated there. *)
Theorem buildTestUrl_spec (base : jsstring) :
  buildTestUrl (JStr base)
  = Normal (trim base ++ (if includes (trim base) "?" then js "&" else js "?")
            ++ js "ac=videolist&wd=test&pg=1")
  /\ (exists l r,
        base = l ++ trim base ++ r
        /\ forallb is_trim_space l = true /\ forallb is_trim_space r = true
        /\ (forall c t, trim base = c :: t -> is_trim_space c = false)
        /\ (forall c t, trim base = t ++ [c] -> is_trim_space c = false))
  /\ buildTestUrl (JStr (js " https://api.example.com/provide/vod "))
     = Normal (js "https://api.example.com/provide/vod?ac=videolist&wd=test&pg=1").
Proof.
  split; [|split].
  - unfold buildTestUrl. rewrite encode_TEST_QUERY. simpl.
    destruct (includes (trim base) "?"); reflexivity.
  - apply trim_spec.
  - reflexivity.
Qed.

(** ** [judgeResponseShape] *)

Lemma judgeResponseShape_parsed (body : jsstring) (v : json) :
  JSON_parse body = Normal v -> judgeResponseShape body = Normal (shape_of v).
Proof.
  intros E. unfold judgeResponseShape, shape_of. rewrite E.
  destruct v as [|b|l|s|es|props]; try reflexivity.
  - destruct b; reflexivity.
  - unfold js_and. cbn [mbind completion_bind try_catch truthy].
    destruct (Number_truthy l); reflexivity.
  - destruct s; reflexivity.
  - unfold has_array_field, has_field.
    unfold js_and. cbn [mbind completion_bind try_catch truthy get prop_name].
    destruct (own_property (js "list") props) as [[]|]; try reflexivity;
    destruct (own_property (js "data") props) as [[]|]; try reflexivity;
    destruct (own_property (js "code") props) as [|]; try reflexivity;
    destruct (own_property (js "total") props) as [|]; reflexivity.
Qed.

(** C2.  For every body that [JSON.parse] accepts, [judgeResponseShape]
    answers [ok] when the parsed value has an array in its field [list],
    else [ok_maybe] when it has an array in its field [data], else
    [ok_maybe] when it has a field [code] or [total], else [unknown]; the
    worker turns [ok] into the final verdict [pass]; and the four bodies of
    the specification are classified as it says. *)
Theorem judgeResponseShape_json (body : jsstring) (v : json)
    (Hparse : JSON_parse body = Normal v) :
  judgeResponseShape body = Normal (shape_of v)
  /\ j_verdict (shape_of v)
     = (if has_array_field (js "list") v then v_ok
        else if has_array_field (js "data") v then v_ok_maybe
        else if has_field (js "code") v || has_field (js "total") v then v_ok_maybe
        else v_unknown)
  /\ (forall status,
        has_array_field (js "list") v = true ->
        probe_verdict {| r_ok := true; r_status := status; r_text := Some body;
                         r_error := None |}
        = Normal (v_pass, js "JSON with list[]"))
  /\ judgeResponseShape (json_text "{'list':[1,2]}")
     = Normal {| j_verdict := v_ok; j_detail := js "JSON with list[]" |}
  /\ judgeResponseShape (json_text "{'data':[1]}")
     = Normal {| j_verdict := v_ok_maybe; j_detail := js "JSON with data[]" |}
  /\ judgeResponseShape (json_text "{'code':0}")
     = Normal {| j_verdict := v_ok_maybe; j_detail := js "JSON with code/total" |}
  /\ judgeResponseShape (json_text "{'foo':1}")
     = Normal {| j_verdict := v_unknown; j_detail := js "JSON but unknown shape" |}.
Proof.
  split; [exact (judgeResponseShape_parsed body v Hparse)|].
  split; [unfold shape_of; repeat (destruct (_ : bool); try reflexivity)|].
  split; [|repeat split; reflexivity].
  intros status Hl. unfold probe_verdict. cbn [r_ok r_text].
  destruct body as [|c t]; [discriminate Hparse|].
  rewrite (judgeResponseShape_parsed (c :: t) v Hparse).
  unfold shape_of. rewrite Hl. reflexivity.
Qed.

(** C3, as the code has it.  For every body that [JSON.parse] rejects,
    [judgeResponseShape] answers [xml_or_html] exactly when the body without
    its leading and trailing white space starts with [<]; otherwise [text]
    when the body is not empty and [empty] when it is the empty string. *)
Theorem judgeResponseShape_not_json (body : jsstring) (e : exn)
    (Hparse : JSON_parse body = Throw e) :
  judgeResponseShape body
  = Normal (if startsWith (trim body) "<"
            then {| j_verdict := v_xml_or_html; j_detail := js "Non-JSON response (XML/HTML)" |}
            else match body with
                 | _ :: _ => {| j_verdict := v_text; j_detail := js "Plain text response" |}
                 | [] => {| j_verdict := v_empty; j_detail := js "Empty body" |}
                 end).
Proof.
  unfold judgeResponseShape. rewrite Hparse.
  cbn [mbind completion_bind try_catch].
  destruct (startsWith (trim body) "<"); [reflexivity|].
  destruct body; reflexivity.
Qed.

Lemma judgeResponseShape_returns (body : jsstring) :
  exists j, judgeResponseShape body = Normal j.
Proof.
  destruct (JSON_parse body) as [v|e] eqn:E.
  - eexists. apply judgeResponseShape_parsed. exact E.
  - unfold judgeResponseShape. rewrite E. cbn [mbind completion_bind try_catch].
    destruct (startsWith (trim body) "<"); [eauto|].
    destruct (0 <? length body)%nat; eauto.
Qed.

(** ** [fetchWithTimeout] *)

Lemma fetchWithTimeout_cases (net : request -> completion response) (url : jsstring) (ms : N) :
  fetchWithTimeout net url ms = Normal (fetch_result (net (fetch_init url ms))).
Proof.
  unfold fetchWithTimeout, fetch_result.
  destruct (net (fetch_init url ms)) as [res|e]; [|reflexivity].
  cbn [mbind completion_bind try_catch]. destruct (res_text res); reflexivity.
Qed.

(** ** The worker pool *)

Lemma site_base_value (site : json) : site_base site = Normal (base_of site).
Proof.
  unfold site_base, base_of.
  destruct site as [|b|l|s|es|props]; try reflexivity.
  - destruct b; reflexivity.
  - cbn [truthy]. destruct (Number_truthy l) eqn:E; [reflexivity|].
    cbn [mbind completion_bind truthy]. rewrite E. reflexivity.
  - destruct s; reflexivity.
Qed.

(** [buildTestUrl] throws what [String(base)] throws, and nothing else. *)
Lemma buildTestUrl_value (base : json) :
  buildTestUrl base
  = match ToString base with
    | Normal _ => Normal (test_url base)
    | Throw e => Throw e
    end.
Proof.
  unfold buildTestUrl, test_url, printed.
  destruct (ToString base) as [u|e]; [|reflexivity].
  cbn [mbind completion_bind]. rewrite encode_TEST_QUERY. reflexivity.
Qed.

Lemma buildTestUrl_prints (base : json) :
  prints base = true -> buildTestUrl base = Normal (test_url base).
Proof.
  rewrite buildTestUrl_value. unfold prints.
  destruct (ToString base); [reflexivity | discriminate].
Qed.

Lemma buildTestUrl_normal (base : json) (u : jsstring) :
  buildTestUrl base = Normal u -> prints base = true /\ u = test_url base.
Proof.
  rewrite buildTestUrl_value. unfold prints.
  destruct (ToString base); [|discriminate]. intros [= <-]. auto.
Qed.

Lemma buildTestUrl_throws (base : json) (e : exn) :
  buildTestUrl base = Throw e <-> ToString base = Throw e.
Proof.
  rewrite buildTestUrl_value. destruct (ToString base); split; congruence.
Qed.

Lemma worker_loop_value (s : pool) :
  worker_loop s
  = match queue s with
    | [] => (s, Returned)
    | (key, site) :: rest =>
        match ToString (base_of site) with
        | Throw e =>
            ({| queue := rest; results := results s; tested := tested s; stdout := stdout s;
                issued := issued s; in_flight := in_flight s; workers := workers s |},
             Threw e)
        | Normal _ =>
            ({| queue := rest; results := results s; tested := tested s; stdout := stdout s;
                issued := issued s ++ [request_of (key, site)];
                in_flight := S (in_flight s); workers := workers s |},
             Awaiting key site (base_of site) (test_url (base_of site)) (length (issued s)))
        end
    end.
Proof.
  unfold worker_loop. destruct (queue s) as [|[key site] rest]; [reflexivity|].
  rewrite site_base_value. cbn [mbind completion_bind].
  rewrite buildTestUrl_value. destruct (ToString (base_of site)); reflexivity.
Qed.

Lemma filter_startable_snoc (taken : list (jsstring * json)) (e : jsstring * json) :
  List.filter startable (taken ++ [e])
  = List.filter startable taken ++ (if startable e then [e] else []).
Proof. rewrite List.filter_app. reflexivity. Qed.

Lemma awaiting_entries_app (a b : list worker) :
  awaiting_entries (a ++ b) = awaiting_entries a ++ awaiting_entries b.
Proof.
  induction a as [|w a IH]; [reflexivity|].
  destruct w; simpl; rewrite IH; reflexivity.
Qed.

Lemma no_throw_app (a b : list worker) : no_throw (a ++ b) = no_throw a && no_throw b.
Proof. apply forallb_app. Qed.

Lemma first_throw_none (ws : list worker) : first_throw ws = None <-> no_throw ws = true.
Proof.
  induction ws as [|w ws IH]; simpl; [tauto|].
  destruct w; simpl; try exact IH. split; discriminate.
Qed.

Lemma probe_verdict_returns (r : FetchResult) : exists vd, probe_verdict r = Normal vd.
Proof.
  unfold probe_verdict. destruct (r_ok r); [|eauto].
  match goal with |- context [judgeResponseShape ?b] =>
    destruct (judgeResponseShape_returns b) as [j ->] end.
  eauto.
Qed.

(** A worker that takes its next entry keeps the invariant. *)
Lemma worker_loop_inv entries s ws1 ws2 s' w :
  pool_inv entries s (ws1 ++ ws2) ->
  worker_loop s = (s', w) ->
  pool_inv entries s' (ws1 ++ w :: ws2).
Proof.
  intros [(taken & Hq & Hi & Hd) Hf Hr Hw Hs]. rewrite worker_loop_value.
  destruct (queue s) as [|[key site] rest] eqn:Q.
  - intros [= <- <-].
    assert (Ha : awaiting_entries (ws1 ++ Returned :: ws2) = awaiting_entries (ws1 ++ ws2))
      by (rewrite !awaiting_entries_app; reflexivity).
    split; rewrite ?Ha; auto.
    + exists taken. rewrite Q. repeat split; auto.
      intros Hn. apply Hd. rewrite no_throw_app in *. simpl in Hn. exact Hn.
    + apply Forall_app in Hw as [Hw1 Hw2]. apply Forall_app. split; auto.
      constructor; [exact I | exact Hw2].
  - assert (Hnone : ~ In Returned (ws1 ++ ws2)) by (intros Hin; discriminate (Hr Hin)).
    assert (Hret : forall w0, w0 <> Returned -> In Returned (ws1 ++ w0 :: ws2) -> rest = []).
    { intros w0 Hw0 Hin. exfalso. apply Hnone. apply in_app_iff in Hin as [Hin|[Hin|Hin]].
      - apply in_app_iff. auto.
      - congruence.
      - apply in_app_iff. auto. }
    destruct (ToString (base_of site)) as [u|e] eqn:Hu; intros [= <- <-].
    + assert (Hst : startable (key, site) = true) by (unfold startable, prints; simpl; rewrite Hu; reflexivity).
      assert (Hperm : awaiting_entries (ws1 ++ Awaiting key site (base_of site)
                        (test_url (base_of site)) (length (issued s)) :: ws2)
                      ≡ₚ (key, site) :: awaiting_entries (ws1 ++ ws2)).
      { rewrite !awaiting_entries_app. simpl. symmetry. apply Permutation_middle. }
      split; simpl.
      * exists (taken ++ [(key, site)]). repeat split.
        -- rewrite <- app_assoc. exact Hq.
        -- rewrite filter_startable_snoc, Hst, map_app, Hi. reflexivity.
        -- intros Hn. destruct Hd as (done & Hp & Hrec).
           { rewrite no_throw_app in *. simpl in Hn. exact Hn. }
           exists done. split; [|exact Hrec].
           rewrite Hperm. rewrite <- Permutation_middle, Hp.
           apply Permutation_cons_append.
      * rewrite Hperm. simpl. rewrite Hf. reflexivity.
      * apply Hret. discriminate.
      * apply Forall_app in Hw as [Hw1 Hw2]. apply Forall_app. split; auto.
        constructor; [|exact Hw2].
        split; [reflexivity|]. split; [reflexivity|].
        apply buildTestUrl_prints. exact Hst.
      * rewrite Hperm. constructor; [|exact Hs].
        rewrite Hq. apply in_app_iff. right. left. reflexivity.
    + assert (Hst : startable (key, site) = false) by (unfold startable, prints; simpl; rewrite Hu; reflexivity).
      assert (Ha : awaiting_entries (ws1 ++ Threw e :: ws2) = awaiting_entries (ws1 ++ ws2))
        by (rewrite !awaiting_entries_app; reflexivity).
      split; rewrite ?Ha; simpl; auto.
      * exists (taken ++ [(key, site)]). repeat split.
        -- rewrite <- app_assoc. exact Hq.
        -- rewrite filter_startable_snoc, Hst, app_nil_r. exact Hi.
        -- intros Hn. rewrite no_throw_app in Hn. simpl in Hn.
           rewrite andb_false_r in Hn. discriminate.
      * apply Hret. discriminate.
      * apply Forall_app in Hw as [Hw1 Hw2]. apply Forall_app. split; auto.
        constructor; [exact I | exact Hw2].
Qed.

Lemma worker_resume_null total key base testUrl net ms s :
  worker_resume total key JNull base testUrl net ms s = (settle s, Threw null_name_error).
Proof.
  unfold worker_resume. rewrite fetchWithTimeout_cases. cbn [mbind completion_bind].
  destruct (probe_verdict_returns (fetch_result net)) as [vd ->].
  reflexivity.
Qed.

Lemma get_not_null (site : json) (p : prop) :
  site <> JNull -> exists n, get site p = Normal n.
Proof. destruct site; intros Hn; try congruence; eexists; reflexivity. Qed.

Lemma worker_resume_value total key site base testUrl net ms s vd n :
  probe_verdict (fetch_result net) = Normal vd ->
  get site p_name = Normal n ->
  let result := {| pr_key := key; pr_name := or_else n (JStr key); pr_base := base;
                   pr_testUrl := testUrl; pr_verdict := fst vd;
                   pr_status := or_zero (r_status (fetch_result net)); pr_ms := ms;
                   pr_detail := snd vd |} in
  worker_resume total key site base testUrl net ms s
  = match ToString (or_else n (JStr [])) with
    | Throw e => (push result (settle s), Threw e)
    | Normal name =>
        worker_loop (console_log (progress_line (S (tested s)) total key name
                                    (fetch_result net) result)
                       (push result (settle s)))
    end.
Proof.
  intros Hvd Hn. unfold worker_resume. rewrite fetchWithTimeout_cases.
  cbn [mbind completion_bind]. rewrite Hvd. cbn [mbind completion_bind]. rewrite Hn.
  cbn [mbind completion_bind]. reflexivity.
Qed.

Lemma get_name (site : json) (n : option json) :
  get site p_name = Normal n -> n = name_of site.
Proof. destruct site; simpl; intros [= <-]; reflexivity. Qed.

Lemma In_middle_weaken {A} (x y z : A) (l1 l2 : list A) :
  x <> y -> In x (l1 ++ y :: l2) -> In x (l1 ++ z :: l2).
Proof.
  intros Hne Hin. apply in_app_iff in Hin as [Hin|[Hin|Hin]].
  - apply in_app_iff. auto.
  - congruence.
  - apply in_app_iff. right. right. exact Hin.
Qed.

(** A worker whose request has ended keeps the invariant. *)
Lemma worker_resume_inv entries total key site base testUrl id net ms s ws1 ws2 s' w :
  pool_inv entries s (ws1 ++ Awaiting key site base testUrl id :: ws2) ->
  worker_resume total key site base testUrl net ms s = (s', w) ->
  pool_inv entries s' (ws1 ++ w :: ws2).
Proof.
  intros [(taken & Hq & Hi & Hd) Hf Hr Hw Hs] E.
  assert (Ha : awaiting_entries (ws1 ++ Awaiting key site base testUrl id :: ws2)
               ≡ₚ (key, site) :: awaiting_entries (ws1 ++ ws2)).
  { rewrite !awaiting_entries_app. simpl. symmetry. apply Permutation_middle. }
  assert (Hw' : Forall worker_ok (ws1 ++ ws2) /\ base = base_of site /\ testUrl = test_url base
                /\ buildTestUrl base = Normal testUrl).
  { apply Forall_app in Hw as [Hw1 Hw2]. inversion Hw2 as [|? ? Hok Hw3]; subst.
    destruct Hok as (Hb & Hu & Hbuilt).
    split; [apply Forall_app; split; assumption | repeat split; assumption]. }
  destruct Hw' as (Hwok & Hbase & Hurl & Hbuilt).
  rewrite Ha in Hs. inversion Hs as [|? ? Hin Hs']; subst x l.
  rewrite Ha in Hf. simpl in Hf.
  assert (Hnull : site = JNull \/ site <> JNull)
    by (destruct site; auto; right; discriminate).
  destruct Hnull as [->|Hsite].
  - rewrite worker_resume_null in E. injection E as <- <-.
    assert (Hb : awaiting_entries (ws1 ++ Threw null_name_error :: ws2)
                 = awaiting_entries (ws1 ++ ws2))
      by (rewrite !awaiting_entries_app; reflexivity).
    split; rewrite ?Hb; simpl; auto.
    + exists taken. repeat split; auto.
      intros Hn. rewrite no_throw_app in Hn. simpl in Hn.
      rewrite andb_false_r in Hn. discriminate.
    + rewrite Hf. reflexivity.
    + intros Hret. apply Hr. eapply In_middle_weaken; [|exact Hret]. discriminate.
    + apply Forall_app in Hwok as [Hw1 Hw2]. apply Forall_app. split; auto.
      constructor; [exact I | exact Hw2].
  - destruct (probe_verdict_returns (fetch_result net)) as [vd Hvd].
    destruct (get_not_null site p_name Hsite) as [n Hn].
    rewrite (worker_resume_value total key site base testUrl net ms s vd n Hvd Hn) in E.
    destruct (ToString (or_else n (JStr []))) as [name|e] eqn:Hname.
    + revert E. apply worker_loop_inv.
      split; simpl; auto.
      * exists taken. repeat split; auto.
        intros Hnt. destruct Hd as (done & Hp & Hrec).
        { rewrite no_throw_app in *. simpl. exact Hnt. }
        exists (done ++ [(key, site)]). split.
        -- rewrite <- app_assoc. simpl. rewrite <- Hp, Ha. reflexivity.
        -- apply Forall2_app; [exact Hrec|].
           constructor; [|constructor].
           unfold recorded, entry_ok, prints. simpl.
           rewrite <- (get_name _ _ Hn), Hname.
           destruct (buildTestUrl_normal _ _ Hbuilt) as [Hpr _].
           subst base testUrl. auto 7.
      * rewrite Hf. reflexivity.
      * intros Hret. apply Hr. apply in_app_iff in Hret as [Hret|Hret]; apply in_app_iff; auto.
        right. right. exact Hret.
    + injection E as <- <-.
      assert (Hb : awaiting_entries (ws1 ++ Threw e :: ws2) = awaiting_entries (ws1 ++ ws2))
        by (rewrite !awaiting_entries_app; reflexivity).
      split; rewrite ?Hb; simpl; auto.
      * exists taken. repeat split; auto.
        intros Hn'. rewrite no_throw_app in Hn'. simpl in Hn'.
        rewrite andb_false_r in Hn'. discriminate.
      * rewrite Hf. reflexivity.
      * intros Hret. apply Hr. eapply In_middle_weaken; [|exact Hret]. discriminate.
      * apply Forall_app in Hwok as [Hw1 Hw2]. apply Forall_app. split; auto.
        constructor; [exact I | exact Hw2].
Qed.

Lemma pool_inv_ext entries s s' ws :
  queue s' = queue s -> results s' = results s -> issued s' = issued s ->
  in_flight s' = in_flight s ->
  pool_inv entries s ws -> pool_inv entries s' ws.
Proof.
  intros Eq Er Ei Ef [Ht Hf Hr Hw Hs].
  split; rewrite ?Eq, ?Er, ?Ei, ?Ef; auto.
Qed.

Lemma worker_loop_workers s s' w : worker_loop s = (s', w) -> workers s' = workers s.
Proof.
  rewrite worker_loop_value. destruct (queue s) as [|[key site] rest];
    [|destruct (ToString (base_of site))]; intros [= <- <-]; reflexivity.
Qed.

(** A worker that goes round the loop takes at most one entry, and throws
    only when the base of the first entry of the queue does not print. *)
Lemma worker_loop_count s s' w :
  worker_loop s = (s', w) ->
  length (queue s') + length (awaiting_entries [w]) <= length (queue s)
  /\ (Forall (fun e => startable e = true) (queue s) -> forall e, w <> Threw e).
Proof.
  rewrite worker_loop_value. destruct (queue s) as [|[key site] rest] eqn:Q.
  - intros [= <- <-]. rewrite Q. split; [reflexivity | discriminate].
  - destruct (ToString (base_of site)) eqn:Hu; intros [= <- <-].
    + simpl. split; [lia | discriminate].
    + simpl. split; [lia|]. intros Hq. inversion Hq as [|? ? Hst _]; subst.
      unfold startable, prints in Hst. simpl in Hst. rewrite Hu in Hst. discriminate.
Qed.

Lemma worker_resume_workers total key site base testUrl net ms s s' w :
  worker_resume total key site base testUrl net ms s = (s', w) -> workers s' = workers s.
Proof.
  assert (Hnull : site = JNull \/ site <> JNull)
    by (destruct site; auto; right; discriminate).
  destruct Hnull as [->|Hsite].
  - rewrite worker_resume_null. intros [= <- <-]. reflexivity.
  - destruct (probe_verdict_returns (fetch_result net)) as [vd Hvd].
    destruct (get_not_null site p_name Hsite) as [n Hn].
    rewrite (worker_resume_value total key site base testUrl net ms s vd n Hvd Hn).
    destruct (ToString (or_else n (JStr []))); [|intros [= <- <-]; reflexivity].
    intros E. apply worker_loop_workers in E. exact E.
Qed.

Lemma worker_resume_count total key site base testUrl net ms s s' w :
  worker_resume total key site base testUrl net ms s = (s', w) ->
  length (queue s') + length (awaiting_entries [w]) <= length (queue s)
  /\ (site <> JNull -> prints (or_else (name_of site) (JStr [])) = true ->
      Forall (fun e => startable e = true) (queue s) -> forall e, w <> Threw e).
Proof.
  assert (Hnull : site = JNull \/ site <> JNull)
    by (destruct site; auto; right; discriminate).
  destruct Hnull as [->|Hsite].
  - rewrite worker_resume_null. intros [= <- <-]. split; [simpl; lia | congruence].
  - destruct (probe_verdict_returns (fetch_result net)) as [vd Hvd].
    destruct (get_not_null site p_name Hsite) as [n Hn].
    rewrite (worker_resume_value total key site base testUrl net ms s vd n Hvd Hn).
    rewrite (get_name _ _ Hn). unfold prints.
    destruct (ToString (or_else (name_of site) (JStr []))).
    + intros E. apply worker_loop_count in E as [E1 E2]. split; [exact E1 | auto].
    + intros [= <- <-]. split; [simpl; lia|]. intros _ Hp. discriminate Hp.
Qed.

(** *** Starting the workers *)

Lemma queue_startable entries s ws :
  pool_inv entries s ws -> Forall entry_ok entries ->
  Forall (fun e => startable e = true) (queue s).
Proof.
  intros [(taken & Hq & _) _ _ _ _] Hok. subst entries.
  apply Forall_app in Hok as [_ Hok].
  eapply Forall_impl; [exact Hok|]. intros e (_ & Hb & _). exact Hb.
Qed.

Lemma start_workers_inv entries n s :
  pool_inv entries s (workers s) ->
  pool_inv entries (start_workers n s) (workers (start_workers n s))
  /\ length (workers (start_workers n s)) = n + length (workers s)
  /\ remaining (start_workers n s) <= remaining s
  /\ (Forall entry_ok entries ->
      no_throw (workers s) = true -> no_throw (workers (start_workers n s)) = true).
Proof.
  revert s. induction n as [|n IH]; intros s Hinv; [auto|].
  simpl. destruct (worker_loop s) as [s' w] eqn:E.
  pose proof (worker_loop_workers _ _ _ E) as Hws.
  pose proof (worker_loop_count _ _ _ E) as [Hc Hnt].
  assert (Hinv' : pool_inv entries (add_worker w s') (workers (add_worker w s'))).
  { apply (pool_inv_ext entries s'); try reflexivity.
    simpl. rewrite Hws. apply worker_loop_inv with (s := s); [|exact E].
    rewrite app_nil_r. exact Hinv. }
  destruct (IH _ Hinv') as (H1 & H2 & H3 & H4).
  split; [exact H1|]. split; [|split].
  - rewrite H2. simpl. rewrite length_app, Hws. simpl. lia.
  - etransitivity; [exact H3|]. unfold remaining. simpl.
    rewrite Hws, awaiting_entries_app, length_app. clear -Hc. destruct w; simpl in *; lia.
  - intros Hok Hn. apply H4; [exact Hok|]. simpl. rewrite Hws, no_throw_app, Hn. simpl.
    destruct w; try reflexivity. exfalso. eapply Hnt; [|reflexivity].
    eapply queue_startable; eassumption.
Qed.

Lemma spawn_inv entries :
  pool_inv entries (spawn entries) (workers (spawn entries))
  /\ length (workers (spawn entries)) = CONCURRENCY
  /\ remaining (spawn entries) <= length entries
  /\ (Forall entry_ok entries -> no_throw (workers (spawn entries)) = true).
Proof.
  unfold spawn.
  set (s0 := {| queue := entries; results := []; tested := 0; stdout := []; issued := [];
                in_flight := 0; workers := [] |}).
  assert (Hinv : pool_inv entries s0 (workers s0)).
  { split; simpl; auto.
    - exists []. repeat split. intros _. exists []. split; [reflexivity | constructor].
    - intros []. }
  destruct (start_workers_inv entries CONCURRENCY s0 Hinv) as (H1 & H2 & H3 & H4).
  split; [exact H1|]. split; [rewrite H2; reflexivity|].
  split; [etransitivity; [exact H3|]; unfold remaining; simpl; lia|].
  intros Hok. apply H4; [exact Hok | reflexivity].
Qed.

(** *** One turn of the event loop *)

Lemma resume_inv entries total i net ms s s' :
  pool_inv entries s (workers s) ->
  resume total i net ms s = Some s' ->
  pool_inv entries s' (workers s')
  /\ length (workers s') = length (workers s)
  /\ S (remaining s') <= remaining s
  /\ (Forall entry_ok entries ->
      no_throw (workers s) = true -> no_throw (workers s') = true).
Proof.
  intros Hinv. unfold resume.
  destruct (workers s !! i) as [[key site base testUrl id| |]|] eqn:Hi; try discriminate.
  destruct (worker_resume total key site base testUrl net ms s) as [s1 w] eqn:E.
  intros [= <-].
  pose proof (worker_resume_workers _ _ _ _ _ _ _ _ _ _ E) as Hws.
  pose proof (worker_resume_count _ _ _ _ _ _ _ _ _ _ E) as [Hc Hnt].
  assert (Hlt : i < length (workers s)) by (eapply lookup_lt_Some; exact Hi).
  assert (Hnew : workers (set_worker i w s1)
                 = take i (workers s) ++ w :: drop (S i) (workers s)).
  { simpl. rewrite Hws. apply insert_take_drop. exact Hlt. }
  pose proof (take_drop_middle _ _ _ Hi) as Hsplit.
  revert Hnew Hsplit.
  generalize (take i (workers s)) (drop (S i) (workers s)). intros ws1 ws2 Hnew Hsplit.
  rewrite <- Hsplit in Hinv.
  split; [|split; [|split]].
  - rewrite Hnew. apply (pool_inv_ext entries s1); try reflexivity.
    eapply worker_resume_inv; [exact Hinv | exact E].
  - simpl. rewrite length_insert, Hws. reflexivity.
  - unfold remaining. rewrite Hnew, <- Hsplit.
    change (w :: ws2) with ([w] ++ ws2).
    rewrite !awaiting_entries_app, !length_app. simpl. simpl in Hc. lia.
  - intros Hsites Hn. rewrite Hnew. rewrite <- Hsplit in Hn.
    rewrite no_throw_app in *. apply andb_true_iff in Hn as [Hn1 Hn2].
    rewrite Hn1. simpl in *. rewrite Hn2.
    destruct w; try reflexivity. exfalso.
    pose proof (queue_startable _ _ _ Hinv Hsites) as Hqs.
    destruct Hinv as [_ _ _ _ Hs]. rewrite awaiting_entries_app in Hs.
    apply Forall_app in Hs as [_ Hs]. simpl in Hs. inversion Hs as [|? ? Hin _]; subst.
    rewrite List.Forall_forall in Hsites. destruct (Hsites _ Hin) as (Hnn & _ & Hname).
    eapply Hnt; [exact Hnn | exact Hname | exact Hqs | reflexivity].
Qed.

(** What holds at every [await] of a run. *)
Lemma reachable_inv entries s :
  reachable entries s ->
  pool_inv entries s (workers s)
  /\ length (workers s) = CONCURRENCY
  /\ remaining s <= length entries
  /\ (Forall entry_ok entries -> no_throw (workers s) = true).
Proof.
  induction 1 as [|s s' Hr (IH1 & IH2 & IH3 & IH4) (i & net & ms & Hstep)].
  - destruct (spawn_inv entries) as (H1 & H2 & H3 & H4).
    split; [exact H1|]. split; [exact H2|]. split; [lia | auto].
  - destruct (resume_inv _ _ _ _ _ _ _ IH1 Hstep) as (H1 & H2 & H3 & H4).
    split; [exact H1|]. split; [congruence|]. split; [lia | auto].
Qed.

(** *** A whole run *)

Lemma awaiting_from_lookup (ws : list worker) (k i id : nat) :
  In (i, id) (awaiting_from k ws) ->
  exists key site base testUrl,
    k <= i /\ ws !! (i - k) = Some (Awaiting key site base testUrl id).
Proof.
  revert k. induction ws as [|w ws IH]; intros k Hin; [destruct Hin|].
  assert (Hrest : In (i, id) (awaiting_from (S k) ws) ->
                  exists key site base testUrl,
                    k <= i /\ (w :: ws) !! (i - k) = Some (Awaiting key site base testUrl id)).
  { intros Hin'. destruct (IH _ Hin') as (key & site & base & testUrl & Hle & Hl).
    exists key, site, base, testUrl. split; [lia|].
    replace (i - k) with (S (i - S k)) by lia. exact Hl. }
  destruct w as [key site base testUrl id'| |]; simpl in Hin; auto.
  destruct Hin as [[= <- <-]|Hin]; auto.
  exists key, site, base, testUrl. split; [lia|].
  rewrite Nat.sub_diag. reflexivity.
Qed.

Lemma awaiting_from_length (ws : list worker) (k : nat) :
  length (awaiting_from k ws) = length (awaiting_entries ws).
Proof.
  revert k. induction ws as [|w ws IH]; intros k; [reflexivity|].
  destruct w; simpl; rewrite IH; reflexivity.
Qed.

Lemma all_returned_intro (ws : list worker) :
  no_throw ws = true -> awaiting_entries ws = [] ->
  forallb (fun w => match w with Returned => true | _ => false end) ws = true.
Proof.
  induction ws as [|w ws IH]; [reflexivity|].
  destruct w; simpl; intros Hn Ha; try discriminate. auto.
Qed.

Lemma all_returned_elim (ws : list worker) :
  forallb (fun w => match w with Returned => true | _ => false end) ws = true ->
  no_throw ws = true /\ awaiting_entries ws = [] /\ (ws <> [] -> In Returned ws).
Proof.
  induction ws as [|w ws IH]; [intros _; repeat split; congruence|].
  destruct w; simpl; intros Hr; try discriminate.
  destruct (IH Hr) as (H1 & H2 & H3). repeat split; auto.
Qed.

Lemma run_pool_unfold (w : world) total fuel turn s :
  run_pool w total (S fuel) turn s
  = match first_throw (workers s), awaiting s with
    | Some _, _ => s
    | None, [] => s
    | None, a :: rest =>
        let '(i, id) := nth (schedule w turn mod length (a :: rest)) (a :: rest) a in
        match resume total i (network w id) (duration w id) s with
        | Some s' => run_pool w total fuel (S turn) s'
        | None => s
        end
    end.
Proof. reflexivity. Qed.

Lemma run_pool_reachable (w : world) entries fuel turn s :
  reachable entries s -> reachable entries (run_pool w (length entries) fuel turn s).
Proof.
  revert turn s. induction fuel as [|fuel IH]; intros turn s Hr; [exact Hr|].
  rewrite run_pool_unfold. destruct (first_throw (workers s)); [exact Hr|].
  destruct (awaiting s) as [|a rest]; [exact Hr|].
  match goal with |- context [nth ?n ?l ?d] => destruct (nth n l d) as [i id] end.
  destruct (resume _ _ _ _ _) as [s'|] eqn:E; [|exact Hr].
  apply IH. eapply reach_step; [exact Hr|]. do 3 eexists. exact E.
Qed.

(** With fuel for what remains to be done, the run ends with every worker
    returned or with a throw. *)
Lemma run_pool_settles (w : world) entries fuel turn s :
  reachable entries s -> remaining s <= fuel ->
  let s' := run_pool w (length entries) fuel turn s in
  no_throw (workers s') = false \/ all_returned s' = true.
Proof.
  revert turn s. induction fuel as [|fuel IH]; intros turn s Hr Hfuel;
    cbv zeta; [|rewrite run_pool_unfold].
  - simpl. destruct (no_throw (workers s)) eqn:Hn; [right|left; reflexivity].
    apply all_returned_intro; [exact Hn|].
    unfold remaining in Hfuel. destruct (awaiting_entries (workers s)); [reflexivity|].
    simpl in Hfuel. lia.
  - destruct (first_throw (workers s)) as [e|] eqn:Ht.
    { left. destruct (no_throw (workers s)) eqn:Hn; [|reflexivity].
      apply first_throw_none in Hn. congruence. }
    apply first_throw_none in Ht.
    destruct (awaiting s) as [|a rest] eqn:Ha.
    { right. apply all_returned_intro; [exact Ht|].
      apply (f_equal (@length _)) in Ha. unfold awaiting in Ha.
      rewrite awaiting_from_length in Ha.
      destruct (awaiting_entries (workers s)); [reflexivity | discriminate]. }
    match goal with |- context [nth ?n ?l ?d] =>
      destruct (nth n l d) as [i id] eqn:Hnth end.
    assert (Hin : In (i, id) (awaiting_from 0 (workers s))).
    { unfold awaiting in Ha. rewrite Ha, <- Hnth. apply nth_In.
      apply Nat.mod_upper_bound. discriminate. }
    destruct (awaiting_from_lookup _ _ _ _ Hin) as (key & site & base & testUrl & _ & Hl).
    rewrite Nat.sub_0_r in Hl.
    destruct (resume (length entries) i (network w id) (duration w id) s) as [s'|] eqn:E.
    + destruct (reachable_inv _ _ Hr) as (Hinv & _).
      destruct (resume_inv _ _ _ _ _ _ _ Hinv E) as (_ & _ & Hrem & _).
      apply IH; [|lia].
      eapply reach_step; [exact Hr|]. do 3 eexists. exact E.
    + unfold resume in E. rewrite Hl in E.
      destruct (worker_resume _ _ _ _ _ _ _ _); discriminate.
Qed.

Lemma awaiting_entries_length_le (ws : list worker) :
  length (awaiting_entries ws) <= length ws.
Proof. induction ws as [|w ws IH]; [reflexivity|]. destruct w; simpl; lia. Qed.

(** The workers started take the first entries of the queue, one each, and
    send a request for those whose base prints. *)
Lemma start_workers_in_flight n s :
  in_flight (start_workers n s)
  = in_flight s + length (List.filter startable (take n (queue s)))
  /\ issued (start_workers n s)
     = issued s ++ map request_of (List.filter startable (take n (queue s)))
  /\ queue (start_workers n s) = drop n (queue s).
Proof.
  revert s. induction n as [|n IH]; intros s.
  { change (start_workers 0 s) with s. rewrite take_0, drop_0. simpl.
    rewrite app_nil_r. auto with arith. }
  simpl. rewrite worker_loop_value.
  destruct (queue s) as [|[key site] rest] eqn:Q.
  - destruct (IH (add_worker Returned s)) as (-> & -> & ->). simpl. rewrite Q.
    rewrite take_nil, drop_nil. auto.
  - assert (Hst : startable (key, site)
                  = match ToString (base_of site) with Normal _ => true | Throw _ => false end)
      by reflexivity.
    change (take (S n) ((key, site) :: rest)) with ((key, site) :: take n rest).
    change (drop (S n) ((key, site) :: rest)) with (drop n rest).
    cbn [List.filter]. rewrite Hst.
    destruct (ToString (base_of site)) eqn:Hu;
      match goal with |- context [start_workers n ?s1] =>
        destruct (IH s1) as (-> & -> & ->) end; cbn [in_flight issued queue add_worker].
    + rewrite <- app_assoc. cbn [map length app]. split; [lia | auto].
    + auto.
Qed.

(** When no entry is [null] and every base and name prints, the run ends
    with every worker returned. *)
Lemma run_pool_completes (w : world) entries :
  Forall entry_ok entries ->
  let s := run_pool w (length entries) (length entries) 0 (spawn entries) in
  reachable entries s /\ all_returned s = true /\ first_throw (workers s) = None.
Proof.
  intros Hsites s.
  assert (Hr : reachable entries s) by (apply run_pool_reachable; constructor).
  destruct (reachable_inv _ _ Hr) as (_ & _ & _ & Hn). specialize (Hn Hsites).
  split; [exact Hr|]. split; [|apply first_throw_none; exact Hn].
  destruct (spawn_inv entries) as (_ & _ & Hrem & _).
  destruct (run_pool_settles w entries (length entries) 0 (spawn entries)) as [Hthrow|Hall];
    [constructor | lia | | exact Hall].
  fold s in Hthrow. rewrite Hn in Hthrow. discriminate.
Qed.

(** ** The claims about the pool *)

Lemma filter_all {A} (f : A -> bool) (l : list A) :
  Forall (fun x => f x = true) l -> List.filter f l = l.
Proof.
  induction 1 as [|x l Hx _ IH]; [reflexivity|]. simpl. rewrite Hx, IH. reflexivity.
Qed.

(** C7.  At every [await] of every run, the number of requests that have
    been handed to [fetch] and have not ended is at most the number of
    workers, which is 8.  The pool starts with one request under way for
    each of the first 8 entries whose base prints; so with more than 8
    entries, the first 8 of them with bases that print, it starts with
    exactly 8 requests under way and the bound is reached. *)
Theorem in_flight_bounded entries s (Hreach : reachable entries s) :
  in_flight s <= CONCURRENCY
  /\ CONCURRENCY = 8
  /\ in_flight s = length (awaiting_entries (workers s))
  /\ in_flight (spawn entries) = length (List.filter startable (take CONCURRENCY entries))
  /\ (CONCURRENCY < length entries ->
      Forall (fun e => startable e = true) (take CONCURRENCY entries) ->
      in_flight (spawn entries) = CONCURRENCY).
Proof.
  destruct (reachable_inv _ _ Hreach) as ([_ Hf _ _ _] & Hlen & _).
  assert (Hspawn : in_flight (spawn entries)
                   = length (List.filter startable (take CONCURRENCY entries))).
  { unfold spawn.
    match goal with |- context [start_workers ?n ?s0] =>
      destruct (start_workers_in_flight n s0) as (-> & _) end.
    reflexivity. }
  split; [|split; [reflexivity|split; [exact Hf|split; [exact Hspawn|]]]].
  - rewrite Hf, <- Hlen. apply awaiting_entries_length_le.
  - intros Hmore Hall. rewrite Hspawn, (filter_all _ _ Hall), length_take. lia.
Qed.

Lemma recorded_keys (done : list (jsstring * json)) (rs : list ProbeResult) :
  Forall2 recorded done rs -> map pr_key rs = map fst done.
Proof.
  induction 1 as [|e r done rs (Hk & _) _ IH]; [reflexivity|].
  simpl. rewrite Hk, IH. reflexivity.
Qed.

Lemma recorded_ok (done : list (jsstring * json)) (rs : list ProbeResult) :
  Forall2 recorded done rs -> Forall entry_ok done.
Proof.
  induction 1 as [|e r done rs (_ & _ & _ & _ & Hok) _ IH]; constructor; assumption.
Qed.

Lemma entry_ok_startable (l : list (jsstring * json)) :
  Forall entry_ok l -> Forall (fun e => startable e = true) l.
Proof. intros Hl. eapply Forall_impl; [exact Hl|]. intros e (_ & Hb & _). exact Hb. Qed.

(** Once every worker has returned, every entry has been handled without a
    throw: none is [null], and every base and every name prints. *)
Lemma finished_ok entries s :
  reachable entries s -> all_returned s = true ->
  Forall entry_ok entries /\ queue s = []
  /\ exists done, done ≡ₚ entries /\ Forall2 recorded done (results s).
Proof.
  intros Hr Hall.
  destruct (reachable_inv _ _ Hr) as ([(taken & Hq & Hi & Hd) Hf Hret _ _] & Hlen & _).
  destruct (all_returned_elim _ Hall) as (Hn & Ha & Hin).
  assert (Hqueue : queue s = []).
  { apply Hret, Hin. intros E. rewrite E in Hlen. discriminate. }
  rewrite Hqueue, app_nil_r in Hq. subst taken.
  destruct (Hd Hn) as (done & Hp & Hrec). rewrite Ha, app_nil_r in Hp.
  split; [|split; [exact Hqueue | exists done; auto]].
  rewrite <- Hp. eapply recorded_ok. exact Hrec.
Qed.

Lemma reachable_issued entries s :
  reachable entries s ->
  exists taken,
    entries = taken ++ queue s /\ issued s = map request_of (List.filter startable taken).
Proof.
  intros Hr. destruct (reachable_inv _ _ Hr) as ([(taken & Hq & Hi & _) _ _ _ _] & _).
  exists taken. auto.
Qed.

(** C6.  For every URL and every way the request can end, [fetchWithTimeout]
    returns and does not throw.  The request it hands to [fetch] is a GET
    with the abort timer set to the delay given, and every request a run
    sends has that delay set to 10000 ms.  When [fetch] rejects (no
    connection, or [AbortError] from the timer) or the body cannot be read,
    the result is [ok: false], [status: 0] and the message of the error;
    otherwise it is the [ok] flag, the status and the body text of the
    response. *)
Theorem fetchWithTimeout_never_throws (net : request -> completion response)
    (url : jsstring) (ms : N) :
  (exists r, fetchWithTimeout net url ms = Normal r)
  /\ req_method (fetch_init url ms) = js "GET"
  /\ req_url (fetch_init url ms) = url
  /\ req_abort_after (fetch_init url ms) = ms
  /\ TIMEOUT_MS = 10000%N
  /\ (forall entries s,
        reachable entries s ->
        Forall (fun q => req_method q = js "GET" /\ req_abort_after q = 10000%N) (issued s))
  /\ (forall e,
        net (fetch_init url ms) = Throw e ->
        fetchWithTimeout net url ms
        = Normal {| r_ok := false; r_status := 0; r_text := None;
                    r_error := Some (error_text e) |})
  /\ (forall res e,
        net (fetch_init url ms) = Normal res -> res_text res = Throw e ->
        fetchWithTimeout net url ms
        = Normal {| r_ok := false; r_status := 0; r_text := None;
                    r_error := Some (error_text e) |})
  /\ (forall res t,
        net (fetch_init url ms) = Normal res -> res_text res = Normal t ->
        fetchWithTimeout net url ms
        = Normal {| r_ok := res_ok res; r_status := res_status res; r_text := Some t;
                    r_error := None |})
  /\ (forall e, exn_message e <> [] -> error_text e = exn_message e)
  /\ error_text AbortError = js "This operation was aborted".
Proof.
  rewrite fetchWithTimeout_cases.
  split; [eexists; reflexivity|].
  do 4 (split; [reflexivity|]).
  split.
  { intros entries s Hr. destruct (reachable_issued _ _ Hr) as (taken & _ & ->).
    apply Forall_map. apply Forall_forall. intros e _. split; reflexivity. }
  split; [intros e ->; reflexivity|].
  split; [intros res e -> He; simpl; rewrite He; reflexivity|].
  split; [intros res t -> Ht; simpl; rewrite Ht; reflexivity|].
  split; [|reflexivity].
  intros e He. unfold error_text. destruct (exn_message e); congruence.
Qed.

(** ** [main] *)

Lemma configured_no_site (cfg : json) :
  value_truthy (api_site_of cfg) = false -> configured cfg = Normal [].
Proof.
  unfold configured, api_site_of.
  destruct cfg as [|b|l|s|es|props]; try reflexivity.
  - destruct b; reflexivity.
  - intros _. cbn [truthy]. destruct (Number_truthy l); reflexivity.
  - destruct s; reflexivity.
  - intros Hf. cbn [truthy get prop_name mbind completion_bind].
    change (own_property (js "api_site") props) with (own_property (js "api_site") props) in Hf.
    rewrite Hf. reflexivity.
Qed.

Lemma configured_distinct (cfg : json) (entries : list (jsstring * json)) :
  distinct_keys cfg -> configured cfg = Normal entries -> NoDup (map fst entries).
Proof.
  intros Hd. unfold configured.
  destruct cfg as [|b|l|s|es|props];
    try (intros [= <-]; constructor);
    try (destruct b; intros [= <-]; constructor);
    try (cbn [truthy]; destruct (Number_truthy l); intros [= <-]; constructor);
    try (destruct s; intros [= <-]; constructor).
  cbn [truthy get prop_name mbind completion_bind].
  change (prop_name p_api_site) with (js "api_site").
  destruct (own_property (js "api_site") props) as [v|] eqn:E;
    [|intros [= <-]; constructor].
  cbn [value_truthy]. destruct (truthy v) eqn:Ht; [|intros [= <-]; constructor].
  cbn [mbind completion_bind default Object_entries].
  inversion Hd as [| | | | |? _ Hall]; subst.
  destruct (own_property_In _ _ _ E) as [k' Hin].
  rewrite List.Forall_forall in Hall. specialize (Hall _ Hin). simpl in Hall.
  destruct v as [|b|l|s|es|props']; try discriminate; cbn [Object_entries].
  - intros [= <-]. constructor.
  - intros [= <-]. constructor.
  - intros [= <-]. apply indexed_distinct.
  - intros [= <-]. apply indexed_distinct.
  - intros [= <-]. inversion Hall; assumption.
Qed.

(** Where [main] returns after a run of the pool, the pool has finished and
    the report is what it collected. *)
Lemma main_returns_inv (w : world) raw cfg e0 entries fx :
  config_file w = Some (Normal raw) -> JSON_parse raw = Normal cfg ->
  configured cfg = Normal (e0 :: entries) ->
  main w = Some (fx, Returns) ->
  let s := run_pool w (length (e0 :: entries)) (length (e0 :: entries)) 0
             (spawn (e0 :: entries)) in
  all_returned s = true
  /\ sent fx = issued s
  /\ written fx = Some (report_path w, {| when := clock w; report_results := results s |}).
Proof.
  intros Hf Hp Hc. unfold main. rewrite Hf, Hp, Hc. cbv zeta.
  destruct (first_throw _); [discriminate|].
  destruct (all_returned _) eqn:Hall; [|discriminate].
  destruct (write_report w); [|discriminate].
  intros [= <-]. repeat split.
Qed.

(** Every run ends. *)
Lemma main_ends (w : world) : exists fx e, main w = Some (fx, e).
Proof.
  unfold main.
  destruct (config_file w) as [[raw|e]|]; [|eauto|eauto].
  destruct (JSON_parse raw) as [cfg|e]; [|eauto].
  destruct (configured cfg) as [[|e0 entries]|e]; [eauto| |eauto].
  set (n := length (e0 :: entries)). cbv zeta.
  destruct (first_throw (workers _)) as [e|] eqn:Ht; [eauto|].
  destruct (spawn_inv (e0 :: entries)) as (_ & _ & Hrem & _).
  destruct (run_pool_settles w (e0 :: entries) n 0 (spawn (e0 :: entries))) as [Hthrow|Hall];
    [constructor | unfold n; lia | |].
  - apply first_throw_none in Ht. fold n in Ht. unfold n in *. congruence.
  - fold n in Hall. unfold n in *. rewrite Hall. destruct (write_report w); eauto.
Qed.

Lemma main_exits (w : world) fx code :
  main w = Some (fx, Exits code) ->
  code = 1%N
  /\ (config_file w = None
      \/ exists raw e, config_file w = Some (Normal raw) /\ JSON_parse raw = Throw e).
Proof.
  unfold main.
  destruct (config_file w) as [[raw|e]|]; [|discriminate|intros [= _ <-]; auto].
  destruct (JSON_parse raw) as [cfg|e] eqn:Hp;
    [|intros [= _ <-]; split; [reflexivity|right; eauto]].
  destruct (configured cfg) as [[|e0 entries]|e]; try discriminate.
  cbv zeta. destruct (first_throw _); [discriminate|].
  destruct (all_returned _); [|discriminate].
  destruct (write_report w); discriminate.
Qed.

Lemma main_no_config (w : world) :
  config_file w = None
  \/ (exists raw e, config_file w = Some (Normal raw) /\ JSON_parse raw = Throw e) ->
  exists fx, main w = Some (fx, Exits 1).
Proof.
  unfold main. intros [->|(raw & e & -> & ->)]; eauto.
Qed.

Lemma main_no_entries (w : world) raw cfg :
  config_file w = Some (Normal raw) -> JSON_parse raw = Normal cfg ->
  configured cfg = Normal [] ->
  main w = Some (no_entries, Returns).
Proof. unfold main. intros -> -> ->. reflexivity. Qed.

(** With a configuration whose entries are not [null] and have bases and
    names that print, and a report that can be written, [main] returns,
    whatever the network does. *)
Lemma main_returns (w : world) raw cfg entries :
  config_file w = Some (Normal raw) -> JSON_parse raw = Normal cfg ->
  configured cfg = Normal entries ->
  Forall entry_ok entries ->
  write_report w = Normal tt ->
  exists fx, main w = Some (fx, Returns).
Proof.
  intros Hf Hp Hc Hsites Hw. unfold main. rewrite Hf, Hp, Hc.
  destruct entries as [|e0 entries]; [eauto|].
  destruct (run_pool_completes w (e0 :: entries) Hsites) as (_ & Hall & Hn).
  cbv zeta. rewrite Hn, Hall, Hw. eauto.
Qed.

(** C1.  In every run over the entries of the configuration, whatever the
    order in which the requests end and however they end: once every worker
    has returned, the keys of the results are the keys of the entries, each
    as often as it is configured; there are as many results as entries; one
    request was sent per entry, in the order of the entries, and none twice;
    nothing is left in the queue or under way.  The run reaches that point
    under every schedule and every network when no entry is [null] and the
    base and the name of every entry can be converted to a string, and it
    reaches it for no other entries (a worker throws on an entry that is
    [null] or has an object with an own [toString] as base or name).  And
    for the entries of a configuration file, whose keys are distinct, the
    report of a run that returns holds exactly one result per key. *)
Theorem one_result_per_endpoint (entries : list (jsstring * json)) :
  (forall s,
      reachable entries s -> all_returned s = true ->
      map pr_key (results s) ≡ₚ map fst entries
      /\ length (results s) = length entries
      /\ (NoDup (map fst entries) -> NoDup (map pr_key (results s)))
      /\ issued s = map request_of entries
      /\ queue s = [] /\ in_flight s = 0)
  /\ (Forall entry_ok entries ->
      forall w : world,
        let s := run_pool w (length entries) (length entries) 0 (spawn entries) in
        reachable entries s /\ all_returned s = true)
  /\ (forall s, reachable entries s -> all_returned s = true -> Forall entry_ok entries)
  /\ (forall (w : world) raw cfg fx,
        config_file w = Some (Normal raw) -> JSON_parse raw = Normal cfg ->
        configured cfg = Normal entries -> entries <> [] ->
        main w = Some (fx, Returns) ->
        NoDup (map fst entries)
        /\ exists rep,
            written fx = Some (report_path w, rep)
            /\ map pr_key (report_results rep) ≡ₚ map fst entries
            /\ NoDup (map pr_key (report_results rep))
            /\ length (report_results rep) = length entries
            /\ sent fx = map request_of entries).
Proof.
  assert (Hdone : forall s,
      reachable entries s -> all_returned s = true ->
      map pr_key (results s) ≡ₚ map fst entries
      /\ length (results s) = length entries
      /\ (NoDup (map fst entries) -> NoDup (map pr_key (results s)))
      /\ issued s = map request_of entries
      /\ queue s = [] /\ in_flight s = 0).
  { intros s Hr Hall.
    destruct (finished_ok _ _ Hr Hall) as (Hok & Hqueue & done & Hp & Hrec).
    destruct (reachable_inv _ _ Hr) as ([(taken & Hq & Hi & _) Hf _ _ _] & _).
    destruct (all_returned_elim _ Hall) as (_ & Ha & _).
    rewrite Hqueue, app_nil_r in Hq. subst taken.
    rewrite (filter_all _ _ (entry_ok_startable _ Hok)) in Hi.
    assert (Hkeys : map pr_key (results s) ≡ₚ map fst entries).
    { rewrite (recorded_keys _ _ Hrec). apply Permutation_map. exact Hp. }
    repeat split; auto.
    + rewrite <- (length_map pr_key), <- (length_map fst entries).
      apply Permutation_length. exact Hkeys.
    + intros Hnd. rewrite Hkeys. exact Hnd.
    + rewrite Hf, Ha. reflexivity. }
  split; [exact Hdone|]. split; [|split].
  - intros Hsites w s.
    destruct (run_pool_completes w entries Hsites) as (Hr & Hall & _). auto.
  - intros s Hr Hall. apply (finished_ok _ _ Hr Hall).
  - intros w raw cfg fx Hf Hp Hc Hne Hmain.
    assert (Hnd : NoDup (map fst entries)).
    { eapply configured_distinct; [|exact Hc]. eapply JSON_parse_distinct. exact Hp. }
    split; [exact Hnd|].
    destruct entries as [|e0 entries]; [congruence|].
    destruct (main_returns_inv w raw cfg e0 entries fx Hf Hp Hc Hmain) as (Hall & Hsent & Hw).
    set (s := run_pool w (length (e0 :: entries)) (length (e0 :: entries)) 0
                (spawn (e0 :: entries))) in *.
    assert (Hr : reachable (e0 :: entries) s) by (apply run_pool_reachable; constructor).
    destruct (Hdone s Hr Hall) as (Hkeys & Hlen & Hdup & Hiss & _).
    eexists. split; [exact Hw|]. simpl report_results.
    split; [exact Hkeys|]. split; [exact (Hdup Hnd)|]. split; [exact Hlen|].
    rewrite Hsent. exact Hiss.
Qed.

(** C8.  Every run ends with an exit status.  The status is not zero
    exactly when there is no configuration file, or the configuration does
    not parse, or [main] ends by an exception; otherwise it is zero, and in
    particular it is zero for every configuration with entries and every
    behaviour of the network, all requests failing included, when no entry
    is [null], the base and the name of every entry can be converted to a
    string and the report can be written.  Conversely a status of zero on a
    configuration that parses means that every entry is of that kind. *)
Theorem exit_status (w : world) :
  exists fx code,
    node w = Some (fx, code)
    /\ (code <> 0%N <->
        config_file w = None
        \/ (exists raw e, config_file w = Some (Normal raw) /\ JSON_parse raw = Throw e)
        \/ (exists fx' e, main w = Some (fx', Throws e)))
    /\ (forall raw cfg entries,
          config_file w = Some (Normal raw) -> JSON_parse raw = Normal cfg ->
          configured cfg = Normal entries ->
          Forall entry_ok entries ->
          write_report w = Normal tt ->
          code = 0%N)
    /\ (forall raw cfg entries,
          config_file w = Some (Normal raw) -> JSON_parse raw = Normal cfg ->
          configured cfg = Normal entries ->
          code = 0%N ->
          Forall entry_ok entries).
Proof.
  destruct (main_ends w) as (fx & e & Hmain).
  unfold node. rewrite Hmain.
  destruct e as [code| |ex].
  - destruct (main_exits _ _ _ Hmain) as [-> Hwhy].
    do 2 eexists. split; [reflexivity|]. split; [|split].
    + split; [intros _; tauto | discriminate].
    + intros raw cfg entries Hf Hp Hc Hs Hw.
      destruct (main_returns w raw cfg entries Hf Hp Hc Hs Hw) as [fx' E]. congruence.
    + discriminate.
  - do 2 eexists. split; [reflexivity|]. split; [|split; [reflexivity|]].
    + split; [intros Hne; exfalso; apply Hne; reflexivity|].
      intros [Hm|[Hm|(fx' & ex & Hm)]].
      * destruct (main_no_config w (or_introl Hm)) as [fx' E]. congruence.
      * destruct (main_no_config w (or_intror Hm)) as [fx' E]. congruence.
      * congruence.
    + intros raw cfg entries Hf Hp Hc _.
      destruct entries as [|e0 entries]; [constructor|].
      destruct (main_returns_inv w raw cfg e0 entries fx Hf Hp Hc Hmain) as (Hall & _).
      eapply finished_ok; [|exact Hall]. apply run_pool_reachable. constructor.
  - do 2 eexists. split; [reflexivity|]. split; [|split].
    + split; [eauto | discriminate].
    + intros raw cfg entries Hf Hp Hc Hs Hw.
      destruct (main_returns w raw cfg entries Hf Hp Hc Hs Hw) as [fx' E]. congruence.
    + discriminate.
Qed.

(** C9.  With a configuration that has no entries, the run prints the one
    line [No api_site entries found.], sends no request, writes no file and
    ends with status zero; the outcome is the same in every world with that
    configuration file. *)
Theorem no_entries_no_report (w : world) (raw : jsstring) (cfg : json)
    (Hfile : config_file w = Some (Normal raw))
    (Hparse : JSON_parse raw = Normal cfg)
    (Hzero : configured cfg = Normal []) :
  node w = Some (no_entries, 0%N)
  /\ out no_entries = [js "No api_site entries found" ++ js "."]
  /\ err no_entries = [] /\ sent no_entries = [] /\ written no_entries = None
  /\ (forall w', config_file w' = config_file w -> node w' = node w).
Proof.
  assert (Hnode : forall w', config_file w' = config_file w -> node w' = Some (no_entries, 0%N)).
  { intros w' E. unfold node.
    rewrite (main_no_entries w' raw cfg); [reflexivity | congruence | assumption..]. }
  split; [apply Hnode; reflexivity|].
  do 4 (split; [reflexivity|]).
  intros w' E. rewrite (Hnode w' E), (Hnode w eq_refl). reflexivity.
Qed.

(** C10.  A configuration that parses and has no [api_site] field, or a
    falsy one, is a configuration with no entries: the run prints the
    no-entries line and ends with status zero. *)
Theorem missing_api_site_is_empty (w : world) (raw : jsstring) (cfg : json)
    (Hfile : config_file w = Some (Normal raw))
    (Hparse : JSON_parse raw = Normal cfg)
    (Hnone : value_truthy (api_site_of cfg) = false) :
  configured cfg = Normal []
  /\ main w = Some (no_entries, Returns)
  /\ node w = Some (no_entries, 0%N).
Proof.
  pose proof (configured_no_site cfg Hnone) as Hc.
  pose proof (main_no_entries w raw cfg Hfile Hparse Hc) as Hm.
  split; [exact Hc|]. split; [exact Hm|].
  unfold node. rewrite Hm. reflexivity.
Qed.

(** ** Failed probes *)

(** A probe of an entry that is not [null] which did not end well is
    recorded as [fail], with the message of the error or else the status.
    Its worker then goes on with the queue when the name of the entry
    prints, and throws when it does not. *)
Lemma failed_probe_recorded total key site base testUrl net ms s :
  site <> JNull ->
  r_ok (fetch_result net) = false ->
  let result :=
    {| pr_key := key; pr_name := or_else (name_of site) (JStr key); pr_base := base;
       pr_testUrl := testUrl; pr_verdict := v_fail;
       pr_status := or_zero (r_status (fetch_result net)); pr_ms := ms;
       pr_detail := match r_error (fetch_result net) with
                    | Some (c :: m) => c :: m
                    | _ => js "HTTP " ++ decimal (r_status (fetch_result net))
                    end |} in
  worker_resume total key site base testUrl net ms s
  = match ToString (or_else (name_of site) (JStr [])) with
    | Throw e => (push result (settle s), Threw e)
    | Normal name =>
        worker_loop
          (console_log (progress_line (S (tested s)) total key name (fetch_result net) result)
             (push result (settle s)))
    end.
Proof.
  intros Hsite Hfail. destruct (get_not_null site p_name Hsite) as [n Hn].
  cbv zeta. rewrite <- (get_name _ _ Hn).
  rewrite (worker_resume_value total key site base testUrl net ms s
             (v_fail, match r_error (fetch_result net) with
                      | Some (c :: m) => c :: m
                      | _ => js "HTTP " ++ decimal (r_status (fetch_result net))
                      end) n); [reflexivity| |exact Hn].
  unfold probe_verdict. rewrite Hfail. reflexivity.
Qed.

Lemma null_site_run (net : completion response) :
  run_pool (example_world null_site_config net) 1 1 0 (spawn [(js "a", JNull)])
  = set_worker 0 (Threw null_name_error) (settle (spawn [(js "a", JNull)])).
Proof.
  rewrite run_pool_unfold.
  set (s := spawn [(js "a", JNull)]).
  assert (Hw : workers s
               = Awaiting (js "a") JNull (JStr []) (js "?ac=videolist&wd=test&pg=1") 0
                 :: repeat Returned 7) by reflexivity.
  unfold awaiting, resume. rewrite Hw.
  cbn [schedule network duration example_world].
  cbn [first_throw repeat awaiting_from nth length Nat.modulo Nat.divmod snd fst Nat.sub
       lookup list_lookup].
  rewrite worker_resume_null. reflexivity.
Qed.

(** C5, at an entry that is [null].  With the configuration
    [{"api_site":{"a":null}}], however the one request ends, the run records
    nothing and writes no report: the worker throws when it reads
    [site.name], [main] ends by that exception and the exit status is 1. *)
Theorem null_site_aborts_run (net : completion response) :
  JSON_parse null_site_config = Normal (JObj [(js "api_site", JObj [(js "a", JNull)])])
  /\ main (example_world null_site_config net)
     = Some ({| out := [js "Testing 1 sources (GET only, timeout 10000ms)..." ++ [10%N]];
                err := [];
                sent := [request_of (js "a", JNull)];
                written := None |},
             Throws null_name_error)
  /\ (exists fx, node (example_world null_site_config net) = Some (fx, 1%N)
                 /\ written fx = None)
  /\ results (run_pool (example_world null_site_config net) 1 1 0 (spawn [(js "a", JNull)]))
     = [].
Proof.
  assert (Hparse : JSON_parse null_site_config
                   = Normal (JObj [(js "api_site", JObj [(js "a", JNull)])])) by reflexivity.
  assert (Hmain : main (example_world null_site_config net)
     = Some ({| out := [js "Testing 1 sources (GET only, timeout 10000ms)..." ++ [10%N]];
                err := [];
                sent := [request_of (js "a", JNull)];
                written := None |},
             Throws null_name_error)).
  { unfold main. cbn [config_file example_world]. rewrite Hparse.
    change (configured (JObj [(js "api_site", JObj [(js "a", JNull)])]))
      with (Normal [(js "a", JNull)]).
    cbv beta iota zeta. change (length [(js "a", JNull)]) with 1.
    rewrite null_site_run. reflexivity. }
  split; [exact Hparse|]. split; [exact Hmain|]. split.
  - unfold node. rewrite Hmain. eexists. split; reflexivity.
  - rewrite null_site_run. reflexivity.
Qed.

(** * Further properties of the script *)

(** ** [buildTestUrl] and white space *)

Lemma trimStart_spaces (l : jsstring) :
  forallb is_trim_space l = true -> trimStart l = [].
Proof.
  induction l as [|c l IH]; [reflexivity|]. simpl.
  intros E. apply andb_true_iff in E as [-> E]. auto.
Qed.

Lemma trimStart_app_spaces (l s : jsstring) :
  forallb is_trim_space l = true -> trimStart (l ++ s) = trimStart s.
Proof.
  induction l as [|c l IH]; [reflexivity|]. simpl.
  intros E. apply andb_true_iff in E as [-> E]. auto.
Qed.

Lemma trimEnd_app_spaces (s r : jsstring) :
  forallb is_trim_space r = true -> trimEnd (s ++ r) = trimEnd s.
Proof.
  intros E. unfold trimEnd. rewrite rev_app_distr, trimStart_app_spaces; [reflexivity|].
  rewrite forallb_forall in *. intros x Hx. apply E. apply in_rev. exact Hx.
Qed.

Lemma trimEnd_nil : trimEnd [] = [].
Proof. reflexivity. Qed.

Lemma trim_app_spaces (l s r : jsstring) :
  forallb is_trim_space l = true -> forallb is_trim_space r = true ->
  trim (l ++ s ++ r) = trim s.
Proof.
  intros Hl Hr. unfold trim. rewrite trimStart_app_spaces by exact Hl. clear l Hl.
  induction s as [|c s IH].
  - simpl. rewrite (trimStart_spaces r Hr). reflexivity.
  - simpl. destruct (is_trim_space c); [exact IH|].
    change (c :: s ++ r) with ((c :: s) ++ r). apply trimEnd_app_spaces. exact Hr.
Qed.

(** X1.  White space around the base does not matter: a base written with
    any white space before and after it gives the same test URL as the base
    without. *)
Theorem buildTestUrl_ignores_padding (l s r : jsstring)
    (Hl : forallb is_trim_space l = true) (Hr : forallb is_trim_space r = true) :
  buildTestUrl (JStr (l ++ s ++ r)) = buildTestUrl (JStr s).
Proof.
  rewrite !buildTestUrl_value. unfold test_url, printed. cbn [ToString].
  rewrite (trim_app_spaces l s r Hl Hr). reflexivity.
Qed.

Lemma includes_app (a b : jsstring) (c : ascii) :
  includes (a ++ b) c = includes a c || includes b c.
Proof. apply existsb_app. Qed.

Lemma ToString_cons (e : json) (r : list json) :
  ToString (JArr (e :: r))
  = (piece ← match e with JNull => Normal [] | _ => ToString e end;
     match r with
     | [] => Normal piece
     | _ :: _ => rest ← ToString (JArr r); Normal (piece ++ js "," ++ rest)
     end).
Proof. destruct r; reflexivity. Qed.

(** What stops [String(v)]: an object with an own [toString] somewhere among
    the elements of [v]. *)
Lemma ToString_outcome (v : json) :
  if own_toString v then ToString v = Throw not_primitive_error
  else exists s, ToString v = Normal s.
Proof.
  revert v. fix IH 1. intros [|b|l|s|es|props].
  - eexists. reflexivity.
  - destruct b; eexists; reflexivity.
  - eexists. reflexivity.
  - eexists. reflexivity.
  - induction es as [|e r IHr]; [eexists; reflexivity|].
    rewrite ToString_cons. cbn [own_toString existsb].
    change (existsb own_toString r) with (own_toString (JArr r)).
    assert (He : if own_toString e
                 then match e with JNull => Normal [] | _ => ToString e end
                      = Throw not_primitive_error
                 else exists s, match e with JNull => Normal [] | _ => ToString e end
                                = Normal s).
    { specialize (IH e). destruct e; try exact IH. eexists. reflexivity. }
    destruct (own_toString e).
    + rewrite He. reflexivity.
    + destruct He as [piece ->]. cbn [orb mbind completion_bind].
      destruct r as [|e' r']; [eexists; reflexivity|].
      destruct (own_toString (JArr (e' :: r'))).
      * rewrite IHr. reflexivity.
      * destruct IHr as [rest ->]. eexists. reflexivity.
  - cbn [own_toString ToString]. destruct (has_key (js "toString") props); [reflexivity|].
    eexists. reflexivity.
Qed.

Lemma prints_own_toString (v : json) : prints v = negb (own_toString v).
Proof.
  unfold prints. pose proof (ToString_outcome v) as Ho.
  destruct (own_toString v); [rewrite Ho; reflexivity|].
  destruct Ho as [s ->]. reflexivity.
Qed.

(** X2.  [buildTestUrl] throws a [TypeError] exactly when the value of the
    [api] field is an object with an own property [toString], or an array
    with such an object among its elements at any depth.  For every other
    value (a string, a number, any other array or object) it returns a URL
    that has a [?] in it and ends with the query.  A worker that finds an
    entry in the queue takes it off the queue in both cases: in the first it
    ends by that error with no request sent, in the second it sends the
    request and waits. *)
Theorem buildTestUrl_outcome (base : json) :
  (own_toString base = true -> buildTestUrl base = Throw not_primitive_error)
  /\ (own_toString base = false ->
      exists url, buildTestUrl base = Normal url
                  /\ includes url "?" = true /\ endsWith url QUERY)
  /\ (forall s key site rest,
        queue s = (key, site) :: rest ->
        site_base site = Normal (base_of site)
        /\ if own_toString (base_of site)
           then worker_loop s
                = ({| queue := rest; results := results s; tested := tested s;
                      stdout := stdout s; issued := issued s;
                      in_flight := in_flight s; workers := workers s |},
                   Threw not_primitive_error)
           else exists u,
                  buildTestUrl (base_of site) = Normal u
                  /\ worker_loop s
                     = ({| queue := rest; results := results s; tested := tested s;
                           stdout := stdout s;
                           issued := issued s ++ [fetch_init u TIMEOUT_MS];
                           in_flight := S (in_flight s); workers := workers s |},
                        Awaiting key site (base_of site) u (length (issued s)))).
Proof.
  split; [|split].
  - intros Ho. rewrite buildTestUrl_value.
    pose proof (ToString_outcome base) as Hs. rewrite Ho in Hs. rewrite Hs. reflexivity.
  - intros Ho. exists (test_url base). split.
    { apply buildTestUrl_prints. rewrite prints_own_toString, Ho. reflexivity. }
    unfold test_url. split.
    + rewrite !includes_app.
      destruct (includes (trim (printed base)) "?") eqn:E; [reflexivity|].
      rewrite orb_false_l. reflexivity.
    + exists (trim (printed base)
              ++ (if includes (trim (printed base)) "?" then js "&" else js "?")).
      rewrite <- app_assoc. reflexivity.
  - intros s key site rest Hq. split; [apply site_base_value|].
    rewrite worker_loop_value, Hq.
    pose proof (ToString_outcome (base_of site)) as Hs.
    destruct (own_toString (base_of site)) eqn:Ho.
    + rewrite Hs. reflexivity.
    + destruct Hs as [u Hu]. rewrite Hu. exists (test_url (base_of site)).
      split; [|reflexivity].
      apply buildTestUrl_prints. unfold prints. rewrite Hu. reflexivity.
Qed.

(** X3.  A site without a usable base: when the site is not an object, or
    has no [api] field, or a falsy one, the base is the empty string and the
    request goes to the bare query [?ac=videolist&wd=test&pg=1]. *)
Theorem missing_api_gives_bare_query (site : json)
    (Hnone : value_truthy (api_of site) = false) :
  site_base site = Normal (JStr [])
  /\ buildTestUrl (JStr []) = Normal (js "?" ++ QUERY)
  /\ req_url (request_of (js "k", site)) = js "?ac=videolist&wd=test&pg=1".
Proof.
  assert (Hbase : base_of site = JStr []).
  { unfold base_of, api_of in *. destruct site as [| | | | |props]; try reflexivity.
    destruct (own_property (js "api") props) as [v|]; [|reflexivity].
    simpl in *. rewrite Hnone. reflexivity. }
  split; [rewrite site_base_value, Hbase; reflexivity|].
  split; [reflexivity|].
  unfold request_of. cbn [snd]. rewrite Hbase. reflexivity.
Qed.

(** ** The verdicts *)

Lemma shape_of_verdict (v : json) :
  j_verdict (shape_of v) = v_ok \/ j_verdict (shape_of v) = v_ok_maybe
  \/ j_verdict (shape_of v) = v_unknown.
Proof.
  unfold shape_of.
  destruct (has_array_field (js "list") v); [auto|].
  destruct (has_array_field (js "data") v); [auto|].
  destruct (has_field (js "code") v || has_field (js "total") v); auto.
Qed.

Lemma judgeResponseShape_thrown (body : jsstring) (e : exn) :
  JSON_parse body = Throw e ->
  judgeResponseShape body
  = Normal (if startsWith (trim body) "<"
            then {| j_verdict := v_xml_or_html; j_detail := js "Non-JSON response (XML/HTML)" |}
            else match body with
                 | _ :: _ => {| j_verdict := v_text; j_detail := js "Plain text response" |}
                 | [] => {| j_verdict := v_empty; j_detail := js "Empty body" |}
                 end).
Proof.
  intros Hparse. unfold judgeResponseShape. rewrite Hparse.
  cbn [mbind completion_bind try_catch].
  destruct (startsWith (trim body) "<"); [reflexivity|].
  destruct body; reflexivity.
Qed.

(** X4.  What the classifier's verdict says about the body: it is
    [xml_or_html], [text] or [empty] exactly when the body is not JSON, and
    [ok], [ok_maybe] or [unknown] exactly when it is; it is [empty] exactly
    for the empty body; and it is never [pass] or [fail]. *)
Theorem judgeResponseShape_verdicts (body : jsstring) :
  exists j,
    judgeResponseShape body = Normal j
    /\ ((j_verdict j = v_xml_or_html \/ j_verdict j = v_text \/ j_verdict j = v_empty)
        <-> exists e, JSON_parse body = Throw e)
    /\ ((j_verdict j = v_ok \/ j_verdict j = v_ok_maybe \/ j_verdict j = v_unknown)
        <-> exists v, JSON_parse body = Normal v)
    /\ (j_verdict j = v_empty <-> body = [])
    /\ j_verdict j <> v_pass /\ j_verdict j <> v_fail.
Proof.
  destruct (JSON_parse body) as [v|e] eqn:E.
  - exists (shape_of v). split; [apply judgeResponseShape_parsed; exact E|].
    pose proof (shape_of_verdict v) as Hv.
    split; [|split; [|split; [|split]]].
    + split; [|intros [e' He']; discriminate].
      intros Hx. exfalso. destruct Hv as [Hv|[Hv|Hv]]; rewrite Hv in Hx;
        destruct Hx as [Hx|[Hx|Hx]]; discriminate.
    + split; [eauto | intros _; exact Hv].
    + split.
      * intros Hx. destruct Hv as [Hv|[Hv|Hv]]; rewrite Hv in Hx; discriminate.
      * intros ->. discriminate E.
    + destruct Hv as [Hv|[Hv|Hv]]; rewrite Hv; discriminate.
    + destruct Hv as [Hv|[Hv|Hv]]; rewrite Hv; discriminate.
  - eexists. split; [apply (judgeResponseShape_thrown body e E)|].
    destruct (startsWith (trim body) "<") eqn:Hs.
    + cbn [j_verdict]. split; [|split; [|split; [|split]]]; try discriminate.
      * split; eauto.
      * split; [intros [Hx|[Hx|Hx]]; discriminate | intros [v Hv]; discriminate].
      * split; [discriminate|]. intros ->. discriminate Hs.
    + destruct body as [|c body]; cbn [j_verdict];
        (split; [|split; [|split; [|split]]]); try discriminate.
      * split; eauto.
      * split; [intros [Hx|[Hx|Hx]]; discriminate | intros [v Hv]; discriminate].
      * split; reflexivity.
      * split; eauto.
      * split; [intros [Hx|[Hx|Hx]]; discriminate | intros [v Hv]; discriminate].
      * split; discriminate.
Qed.

Lemma shape_of_ok (v : json) :
  j_verdict (shape_of v) = v_ok <-> has_array_field (js "list") v = true.
Proof.
  unfold shape_of. destruct (has_array_field (js "list") v); [split; reflexivity|].
  destruct (has_array_field (js "data") v); [split; discriminate|].
  destruct (has_field (js "code") v || has_field (js "total") v); split; discriminate.
Qed.

Lemma probe_verdict_cases (r : FetchResult) :
  exists vd,
    probe_verdict r = Normal vd
    /\ fst vd <> v_ok
    /\ (fst vd = v_fail <-> r_ok r = false)
    /\ (fst vd = v_pass <->
        r_ok r = true
        /\ exists v, JSON_parse (text_or_empty r) = Normal v
                     /\ has_array_field (js "list") v = true).
Proof.
  unfold probe_verdict. fold (text_or_empty r).
  destruct (r_ok r).
  2:{ eexists. split; [reflexivity|]. cbn [fst]. repeat split; try discriminate.
      intros [Hx _]. discriminate. }
  destruct (JSON_parse (text_or_empty r)) as [v|e] eqn:E.
  - rewrite (judgeResponseShape_parsed _ v E). cbn [mbind completion_bind].
    eexists. split; [reflexivity|]. cbn [fst].
    pose proof (shape_of_ok v) as Hok.
    destruct (shape_of_verdict v) as [Hv|[Hv|Hv]]; rewrite Hv in *; cbn [verdict_eqb].
    + repeat split; try discriminate.
      exists v. split; [reflexivity | apply Hok; reflexivity].
    + repeat split; try discriminate.
      intros (_ & v' & [= <-] & Hl). apply Hok in Hl. discriminate.
    + repeat split; try discriminate.
      intros (_ & v' & [= <-] & Hl). apply Hok in Hl. discriminate.
  - rewrite (judgeResponseShape_thrown _ e E). cbn [mbind completion_bind].
    eexists. split; [reflexivity|].
    destruct (startsWith (trim (text_or_empty r)) "<"); [|destruct (text_or_empty r)];
      cbn [fst j_verdict verdict_eqb]; repeat split; try discriminate;
      intros (_ & v & Hx & _); discriminate.
Qed.

(** X5.  What the verdict of a probe says about the request: it is [fail]
    exactly when the request did not end with a response in the range 200
    to 299 whose body could be read; it is [pass] exactly when it did and
    the body is JSON with an array in [list]; it is never [ok]. *)
Theorem probe_verdict_meaning (net : completion response) :
  exists vd,
    probe_verdict (fetch_result net) = Normal vd
    /\ (fst vd = v_fail <->
        ~ exists res t, net = Normal res /\ res_text res = Normal t /\ res_ok res = true)
    /\ (fst vd = v_pass <->
        exists res t v, net = Normal res /\ res_text res = Normal t /\ res_ok res = true
                        /\ JSON_parse t = Normal v /\ has_array_field (js "list") v = true)
    /\ fst vd <> v_ok.
Proof.
  destruct (probe_verdict_cases (fetch_result net)) as (vd & Hvd & Hnok & Hfail & Hpass).
  exists vd. split; [exact Hvd|]. split; [|split; [|exact Hnok]].
  - rewrite Hfail. destruct net as [res|e]; cbn [fetch_result].
    2:{ split; [|reflexivity]. intros _ (res & t & Hx & _). discriminate. }
    destruct (res_text res) as [t|e] eqn:Ht.
    2:{ split; [|reflexivity]. intros _ (res' & t & [= <-] & Ht' & _). congruence. }
    cbn [r_ok]. split.
    + intros Hok (res' & t' & [= <-] & _ & Hok'). congruence.
    + intros Hx. destruct (res_ok res) eqn:Hok; [|reflexivity].
      exfalso. apply Hx. eauto.
  - rewrite Hpass. destruct net as [res|e]; cbn [fetch_result].
    2:{ split; [intros [Hx _]; discriminate | intros (res & t & v & Hx & _); discriminate]. }
    destruct (res_text res) as [t|e] eqn:Ht.
    2:{ split; [intros [Hx _]; discriminate|].
        intros (res' & t & v & [= <-] & Ht' & _). congruence. }
    cbn [r_ok]. unfold text_or_empty. cbn [r_text].
    assert (Hbody : match t with c :: t0 => c :: t0 | [] => [] end = t)
      by (destruct t; reflexivity).
    split.
    + intros (Hok & v & Hparse & Hl). exists res, t, v.
      destruct t; repeat split; auto.
    + intros (res' & t' & v & [= <-] & Ht' & Hok & Hparse & Hl).
      assert (t' = t) by congruence. subst t'.
      split; [exact Hok|]. exists v. destruct t; auto.
Qed.

(** ** The pool, step by step *)

Lemma worker_loop_fields s s' w :
  worker_loop s = (s', w) ->
  results s' = results s /\ tested s' = tested s /\ stdout s' = stdout s.
Proof.
  rewrite worker_loop_value. destruct (queue s) as [|[key site] rest];
    [|destruct (ToString (base_of site))]; intros [= <- <-]; repeat split.
Qed.

Lemma forallb_snoc {A} (f : A -> bool) (l : list A) (x : A) :
  forallb f (l ++ [x]) = forallb f l && f x.
Proof. rewrite forallb_app. simpl. rewrite andb_true_r. reflexivity. Qed.

(** The workers started take the first entries of the queue, one each: a
    worker whose entry has a base that prints sends its request and waits,
    a worker whose entry has not throws, a worker that finds the queue
    empty returns. *)
Lemma start_workers_fields n s :
  results (start_workers n s) = results s
  /\ tested (start_workers n s) = tested s
  /\ stdout (start_workers n s) = stdout s
  /\ queue (start_workers n s) = drop n (queue s)
  /\ issued (start_workers n s)
     = issued s ++ map request_of (List.filter startable (take n (queue s)))
  /\ awaiting_entries (workers (start_workers n s))
     = awaiting_entries (workers s) ++ List.filter startable (take n (queue s))
  /\ no_throw (workers (start_workers n s))
     = no_throw (workers s) && forallb startable (take n (queue s)).
Proof.
  revert s. induction n as [|n IH]; intros s.
  - change (start_workers 0 s) with s. rewrite drop_0, take_0. simpl.
    rewrite !app_nil_r, andb_true_r. repeat split.
  - simpl. rewrite worker_loop_value. destruct (queue s) as [|[key site] rest] eqn:Q.
    + destruct (IH (add_worker Returned s)) as (H1 & H2 & H3 & H4 & H5 & H6 & H7).
      rewrite H1, H2, H3, H4, H5, H6, H7. simpl. rewrite Q, awaiting_entries_app.
      unfold no_throw. rewrite forallb_snoc, take_nil, drop_nil. simpl.
      rewrite !app_nil_r, !andb_true_r. repeat split.
    + assert (Hst : startable (key, site)
                    = match ToString (base_of site) with
                      | Normal _ => true
                      | Throw _ => false
                      end) by reflexivity.
      change (take (S n) ((key, site) :: rest)) with ((key, site) :: take n rest).
      change (drop (S n) ((key, site) :: rest)) with (drop n rest).
      destruct (ToString (base_of site)) eqn:Hu;
        match goal with |- context [start_workers n ?x] =>
          destruct (IH x) as (H1 & H2 & H3 & H4 & H5 & H6 & H7) end;
        rewrite H1, H2, H3, H4, H5, H6, H7;
        cbn [results tested stdout queue issued workers add_worker List.filter forallb];
        rewrite Hst, awaiting_entries_app; unfold no_throw; rewrite forallb_snoc;
        cbn [awaiting_entries map app]; rewrite <- ?app_assoc, ?app_nil_r, ?andb_true_r;
        cbn [app andb]; repeat split.
      rewrite andb_false_r. reflexivity.
Qed.

Lemma no_throw_insert (ws : list worker) (i : nat) (w w0 : worker) :
  ws !! i = Some w0 ->
  no_throw (<[i := w]> ws)
  = no_throw (take i ws) && (match w with Threw _ => false | _ => true end)
    && no_throw (drop (S i) ws).
Proof.
  intros Hi. rewrite insert_take_drop by (eapply lookup_lt_Some; exact Hi).
  rewrite no_throw_app. simpl. rewrite andb_assoc. reflexivity.
Qed.

Lemma no_throw_lookup (ws : list worker) (i : nat) (w0 : worker) :
  ws !! i = Some w0 ->
  no_throw ws
  = no_throw (take i ws) && (match w0 with Threw _ => false | _ => true end)
    && no_throw (drop (S i) ws).
Proof.
  intros Hi. rewrite <- (take_drop_middle _ _ _ Hi) at 1.
  rewrite no_throw_app. simpl. rewrite andb_assoc. reflexivity.
Qed.

(** What one turn of the event loop does to the shared variables: nothing
    when the entry is [null]; otherwise the result is pushed and counted,
    and then the progress line is printed, unless the name of the entry
    does not print, which ends the worker by a throw. *)
Lemma resume_cases total i net ms s s' :
  resume total i net ms s = Some s' ->
  exists key site base testUrl id w,
    workers s !! i = Some (Awaiting key site base testUrl id)
    /\ workers s' = <[i := w]> (workers s)
    /\ ((site = JNull /\ results s' = results s /\ tested s' = tested s
         /\ stdout s' = stdout s /\ w = Threw null_name_error)
        \/ (site <> JNull
            /\ exists vd n,
                probe_verdict (fetch_result net) = Normal vd
                /\ get site p_name = Normal n
                /\ results s'
                   = results s
                     ++ [{| pr_key := key; pr_name := or_else n (JStr key); pr_base := base;
                            pr_testUrl := testUrl; pr_verdict := fst vd;
                            pr_status := or_zero (r_status (fetch_result net));
                            pr_ms := ms; pr_detail := snd vd |}]
                /\ tested s' = S (tested s)
                /\ match ToString (or_else n (JStr [])) with
                   | Normal name =>
                       (exists line, stdout s' = stdout s ++ [line])
                       /\ (Forall (fun e => startable e = true) (queue s) ->
                           forall e, w <> Threw e)
                   | Throw e => stdout s' = stdout s /\ w = Threw e
                   end)).
Proof.
  unfold resume.
  destruct (workers s !! i) as [[key site base testUrl id| |]|] eqn:Hi; try discriminate.
  destruct (worker_resume total key site base testUrl net ms s) as [s1 w] eqn:E.
  intros [= <-]. exists key, site, base, testUrl, id, w. split; [reflexivity|].
  split; [simpl; rewrite (worker_resume_workers _ _ _ _ _ _ _ _ _ _ E); reflexivity|].
  assert (Hnull : site = JNull \/ site <> JNull)
    by (destruct site; auto; right; discriminate).
  destruct Hnull as [->|Hsite].
  - left. rewrite worker_resume_null in E. injection E as <- <-. repeat split.
  - right. split; [exact Hsite|].
    destruct (probe_verdict_returns (fetch_result net)) as [vd Hvd].
    destruct (get_not_null site p_name Hsite) as [n Hn].
    rewrite (worker_resume_value total key site base testUrl net ms s vd n Hvd Hn) in E.
    exists vd, n. split; [exact Hvd|]. split; [exact Hn|].
    destruct (ToString (or_else n (JStr []))) as [name|e].
    + pose proof (worker_loop_count _ _ _ E) as [_ Hnt].
      apply worker_loop_fields in E as (E1 & E2 & E3).
      simpl in *. rewrite E1, E2, E3. repeat split; eauto.
    + injection E as <- <-. repeat split.
Qed.

Lemma reachable_counters entries s :
  reachable entries s ->
  tested s = length (results s)
  /\ length (stdout s) <= length (results s)
  /\ (no_throw (workers s) = true -> length (stdout s) = length (results s))
  /\ length (results s) + remaining s <= length entries
  /\ Forall (fun r => pr_verdict r <> v_ok) (results s).
Proof.
  induction 1 as [|s s' Hr (IH1 & IH2 & IH2' & IH3 & IH4) (i & net & ms & Hstep)].
  - destruct (spawn_inv entries) as (_ & _ & Hrem & _).
    unfold spawn in *.
    match goal with |- context [start_workers ?n ?x] =>
      destruct (start_workers_fields n x) as (H1 & H2 & H3 & _) end.
    rewrite H1, H2, H3. simpl. repeat split; auto.
  - destruct (reachable_inv _ _ Hr) as (Hinv & _).
    destruct (resume_inv _ _ _ _ _ _ _ Hinv Hstep) as (_ & _ & Hrem & _).
    destruct (resume_cases _ _ _ _ _ _ Hstep)
      as (key & site & base & testUrl & id & w & Hi & Hws
          & [(_ & E1 & E2 & E3 & Hw)|(_ & vd & n & Hvd & _ & E1 & E2 & E3)]).
    + rewrite E1, E2, E3. repeat split; auto; [|lia].
      rewrite Hws, (no_throw_insert _ _ _ _ Hi), Hw, andb_false_r. discriminate.
    + assert (Hok : Forall (fun r => pr_verdict r <> v_ok)
                      (results s ++ [{| pr_key := key; pr_name := or_else n (JStr key);
                                        pr_base := base; pr_testUrl := testUrl;
                                        pr_verdict := fst vd;
                                        pr_status := or_zero (r_status (fetch_result net));
                                        pr_ms := ms; pr_detail := snd vd |}])).
      { apply Forall_app. split; [exact IH4|]. repeat constructor. simpl.
        destruct (probe_verdict_cases (fetch_result net)) as (vd' & Hvd' & Hnok & _).
        congruence. }
      rewrite E1, E2, !length_app. simpl.
      destruct (ToString (or_else n (JStr []))) as [name|e].
      * destruct E3 as [[line E3] _]. rewrite E3, length_app. simpl.
        repeat split; try lia; [|exact Hok].
        intros Hn. rewrite Hws, (no_throw_insert _ _ _ _ Hi) in Hn.
        rewrite IH2'; [reflexivity|].
        rewrite (no_throw_lookup _ _ _ Hi).
        apply andb_true_iff in Hn as [Hn Hn2]. apply andb_true_iff in Hn as [Hn1 _].
        rewrite Hn1, Hn2. reflexivity.
      * destruct E3 as [E3 Hw]. rewrite E3.
        repeat split; try lia; [|exact Hok].
        rewrite Hws, (no_throw_insert _ _ _ _ Hi), Hw, andb_false_r. discriminate.
Qed.

(** X6.  The counters of a run at every [await]: [tested] is the number of
    results and never exceeds the number of entries; there are at most as
    many progress lines as results, and as many as long as no worker has
    thrown (a worker whose entry has a name that does not print pushes the
    result, counts it, and throws before it prints the line).  A turn of the
    event loop leaves the results as they are or adds one at the end, never
    changing or removing one, and does the same to the lines printed. *)
Theorem results_grow_one_by_one entries s (Hreach : reachable entries s) :
  tested s = length (results s)
  /\ length (stdout s) <= length (results s)
  /\ (no_throw (workers s) = true -> length (stdout s) = length (results s))
  /\ tested s <= length entries
  /\ (forall s', step (length entries) s s' ->
                 (results s' = results s \/ exists r, results s' = results s ++ [r])
                 /\ (stdout s' = stdout s \/ exists line, stdout s' = stdout s ++ [line])).
Proof.
  destruct (reachable_counters _ _ Hreach) as (H1 & H2 & H2' & H3 & _).
  split; [exact H1|]. split; [exact H2|]. split; [exact H2'|]. split; [lia|].
  intros s' (i & net & ms & Hstep).
  destruct (resume_cases _ _ _ _ _ _ Hstep)
    as (key & site & base & testUrl & id & w & _ & _
        & [(_ & E1 & _ & E3 & _)|(_ & vd & n & _ & _ & E1 & _ & E3)]); [auto|].
  split; [eauto|].
  destruct (ToString (or_else n (JStr []))); [right; apply E3 | left; apply E3].
Qed.

(** X7.  Entries are taken in their order: at every [await] the queue holds
    the entries after the first [k], for some [k], and the requests sent so
    far are those of the entries among the first [k] whose base prints, one
    each and in that order (an entry whose base does not print is taken off
    the queue without a request).  When every base prints, [k] is the number
    of requests sent. *)
Theorem requests_in_entry_order entries s (Hreach : reachable entries s) :
  exists k,
    k <= length entries
    /\ queue s = drop k entries
    /\ issued s = map request_of (List.filter startable (take k entries))
    /\ (Forall (fun e => startable e = true) entries ->
        k = length (issued s)
        /\ issued s = map request_of (take (length (issued s)) entries)).
Proof.
  destruct (reachable_issued _ _ Hreach) as (taken & Hq & Hi).
  exists (length taken). rewrite Hq at 1 2 3.
  rewrite take_app_length, drop_app_length, length_app.
  split; [lia|]. split; [reflexivity|]. split; [exact Hi|].
  intros Hall.
  assert (Ht : List.filter startable taken = taken).
  { apply filter_all. rewrite Hq in Hall. apply Forall_app in Hall as [Hall _]. exact Hall. }
  rewrite Ht in Hi.
  assert (Hlen : length taken = length (issued s)) by (rewrite Hi, length_map; reflexivity).
  split; [exact Hlen|]. rewrite <- Hlen, Hq, take_app_length. exact Hi.
Qed.

Lemma spawn_nothing_recorded (entries : list (jsstring * json)) :
  results (spawn entries) = [] /\ stdout (spawn entries) = [].
Proof.
  unfold spawn.
  match goal with |- context [start_workers ?n ?x] =>
    destruct (start_workers_fields n x) as (H1 & _ & H3 & _) end.
  rewrite H1, H3. split; reflexivity.
Qed.

(** X8.  The pool starts eight workers, which take the first eight entries
    off the queue (all of them when there are fewer).  The requests of those
    whose base prints are sent at once, in the order of the entries; a
    worker throws for each of the others; the entries after the eighth wait
    in the queue, and nothing is recorded or printed yet. *)
Theorem spawn_takes_first_eight (entries : list (jsstring * json)) :
  issued (spawn entries) = map request_of (List.filter startable (take 8 entries))
  /\ queue (spawn entries) = drop 8 entries
  /\ awaiting_entries (workers (spawn entries)) = List.filter startable (take 8 entries)
  /\ in_flight (spawn entries) = length (List.filter startable (take 8 entries))
  /\ no_throw (workers (spawn entries)) = forallb startable (take 8 entries)
  /\ length (workers (spawn entries)) = 8
  /\ results (spawn entries) = [] /\ stdout (spawn entries) = [].
Proof.
  destruct (spawn_inv entries) as (_ & Hlen & _).
  split; [|split; [|split; [|split; [|split; [|split; [exact Hlen|]]]]]].
  all: unfold spawn;
    match goal with |- context [start_workers ?n ?x] =>
      destruct (start_workers_fields n x) as (H1 & _ & H3 & H4 & H5 & H6 & H7);
      destruct (start_workers_in_flight n x) as (H8 & _) end.
  - rewrite H5. reflexivity.
  - rewrite H4. reflexivity.
  - rewrite H6. reflexivity.
  - rewrite H8. reflexivity.
  - rewrite H7. reflexivity.
  - rewrite H1, H3. split; reflexivity.
Qed.

(** ** The summary *)

Lemma count_verdict_cons (vs : list verdict) (r : ProbeResult) (rs : list ProbeResult) :
  count_verdict vs (r :: rs)
  = (if existsb (verdict_eqb (pr_verdict r)) vs then 1 else 0) + count_verdict vs rs.
Proof.
  unfold count_verdict. rewrite filter_cons.
  destruct (existsb (verdict_eqb (pr_verdict r)) vs); reflexivity.
Qed.

Lemma bucket_total_length (rs : list ProbeResult) :
  Forall (fun r => pr_verdict r <> v_ok) rs -> bucket_total rs = length rs.
Proof.
  unfold bucket_total.
  induction 1 as [|r rs Hr _ IH]; [reflexivity|].
  rewrite !count_verdict_cons. cbn [length].
  destruct (pr_verdict r); try congruence; cbn [existsb verdict_eqb orb]; lia.
Qed.

(** X9.  The five numbers of the summary add up to the number of results:
    at every [await] every result falls in exactly one of PASS, MAYBE,
    XML/HTML, UNKNOWN/TEXT and FAIL/EMPTY. *)
Theorem summary_counts_every_result entries s (Hreach : reachable entries s) :
  bucket_total (results s) = length (results s)
  /\ Forall (fun r => pr_verdict r <> v_ok) (results s).
Proof.
  destruct (reachable_counters _ _ Hreach) as (_ & _ & _ & _ & Hnok).
  split; [apply bucket_total_length; exact Hnok | exact Hnok].
Qed.

(** ** Runs in which every request fails *)

Lemma run_pool_all_fail (w : world) total fuel turn s :
  (forall id, r_ok (fetch_result (network w id)) = false) ->
  Forall (fun r => pr_verdict r = v_fail) (results s) ->
  Forall (fun r => pr_verdict r = v_fail) (results (run_pool w total fuel turn s)).
Proof.
  intros Hnet. revert turn s. induction fuel as [|fuel IH]; intros turn s Hall; [exact Hall|].
  rewrite run_pool_unfold. destruct (first_throw (workers s)); [exact Hall|].
  destruct (awaiting s) as [|a rest]; [exact Hall|].
  match goal with |- context [nth ?n ?l ?d] => destruct (nth n l d) as [i id] end.
  destruct (resume _ _ _ _ _) as [s'|] eqn:E; [|exact Hall].
  apply IH.
  destruct (resume_cases _ _ _ _ _ _ E)
    as (key & site & base & testUrl & id' & w' & _ & _
        & [(_ & E1 & _)|(_ & vd & n & Hvd & _ & E1 & _)]);
    rewrite E1; [exact Hall|].
  apply Forall_app. split; [exact Hall|]. repeat constructor. simpl.
  destruct (probe_verdict_cases (fetch_result (network w id))) as (vd' & Hvd' & _ & Hfail & _).
  assert (vd' = vd) by congruence. subst vd'. apply Hfail, Hnet.
Qed.

Lemma count_verdict_all_fail (rs : list ProbeResult) :
  Forall (fun r => pr_verdict r = v_fail) rs ->
  count_verdict [v_fail; v_empty] rs = length rs /\ count_verdict [v_pass] rs = 0.
Proof.
  induction 1 as [|r rs Hr _ [IH1 IH2]]; [split; reflexivity|].
  rewrite !count_verdict_cons, Hr, IH1, IH2. split; reflexivity.
Qed.

Lemma finished_length entries s :
  reachable entries s -> all_returned s = true -> length (results s) = length entries.
Proof.
  intros Hr Hall.
  destruct (finished_ok _ _ Hr Hall) as (_ & _ & done & Hp & Hrec).
  rewrite <- (Forall2_length _ _ _ Hrec). apply Permutation_length. exact Hp.
Qed.

Lemma main_returns_out (w : world) raw cfg e0 entries fx :
  config_file w = Some (Normal raw) -> JSON_parse raw = Normal cfg ->
  configured cfg = Normal (e0 :: entries) ->
  main w = Some (fx, Returns) ->
  let s := run_pool w (length (e0 :: entries)) (length (e0 :: entries)) 0
             (spawn (e0 :: entries)) in
  exists banner saved, out fx = banner :: stdout s ++ summary (results s) ++ [saved].
Proof.
  intros Hf Hp Hc. unfold main. rewrite Hf, Hp, Hc. cbv zeta.
  destruct (first_throw _); [discriminate|].
  destruct (all_returned _); [|discriminate].
  destruct (write_report w); [|discriminate].
  intros [= <-]. do 2 eexists. cbn [out]. rewrite <- app_assoc. reflexivity.
Qed.

(** X10.  A run in which every request fails (no connection, a timeout, a
    status outside 200 to 299) still ends with status zero and writes its
    report: the report has one result per entry, every one of them [fail],
    and the summary prints [PASS: 0] and [FAIL/EMPTY: N] for the [N]
    entries.  This is for a configuration with entries none of which is
    [null], all of which have a base and a name that can be converted to a
    string, and a report file that can be written. *)
Theorem all_requests_failing (w : world) (raw : jsstring) (cfg : json)
    (entries : list (jsstring * json))
    (Hfile : config_file w = Some (Normal raw))
    (Hparse : JSON_parse raw = Normal cfg)
    (Hconf : configured cfg = Normal entries)
    (Hsome : entries <> [])
    (Hsites : Forall entry_ok entries)
    (Hwrite : write_report w = Normal tt)
    (Hnet : forall id, r_ok (fetch_result (network w id)) = false) :
  exists fx rep,
    node w = Some (fx, 0%N)
    /\ written fx = Some (report_path w, rep)
    /\ length (report_results rep) = length entries
    /\ Forall (fun r => pr_verdict r = v_fail) (report_results rep)
    /\ In (js "PASS: 0") (out fx)
    /\ In (js "FAIL/EMPTY: " ++ decimal (N.of_nat (length entries))) (out fx).
Proof.
  destruct (main_returns w raw cfg entries Hfile Hparse Hconf Hsites Hwrite) as [fx Hmain].
  destruct entries as [|e0 entries]; [congruence|].
  destruct (main_returns_inv w raw cfg e0 entries fx Hfile Hparse Hconf Hmain)
    as (Hall & _ & Hw).
  destruct (main_returns_out w raw cfg e0 entries fx Hfile Hparse Hconf Hmain)
    as (banner & saved & Hout).
  set (s := run_pool w (length (e0 :: entries)) (length (e0 :: entries)) 0
              (spawn (e0 :: entries))) in *.
  assert (Hr : reachable (e0 :: entries) s) by (apply run_pool_reachable; constructor).
  assert (Hfails : Forall (fun r => pr_verdict r = v_fail) (results s)).
  { apply run_pool_all_fail; [exact Hnet|].
    destruct (spawn_nothing_recorded (e0 :: entries)) as (-> & _). constructor. }
  destruct (count_verdict_all_fail _ Hfails) as (Hcf & Hcp).
  pose proof (finished_length _ _ Hr Hall) as Hlen.
  exists fx. eexists. split; [unfold node; rewrite Hmain; reflexivity|].
  split; [exact Hw|]. cbn [report_results]. split; [exact Hlen|]. split; [exact Hfails|].
  rewrite Hout. unfold summary. rewrite Hcf, Hcp, Hlen. split.
  - right. apply in_app_iff. right. apply in_app_iff. left. right. left. reflexivity.
  - right. apply in_app_iff. right. apply in_app_iff. left.
    do 5 right. left. reflexivity.
Qed.

(** ** Runs that stop before the pool *)

(** X11.  When there is no configuration file, or it cannot be read, or it
    does not parse, nothing is attempted: no request is sent, nothing is
    printed on the standard output, no report is written, and the status is
    1.  [console.error] is called once: with the path of the file that is
    missing, with the message of the parse error, or, when reading the file
    throws, by the handler of [main] with that error. *)
Theorem fatal_config_attempts_nothing (w : world)
    (Hbad : config_file w = None
            \/ (exists e, config_file w = Some (Throw e))
            \/ (exists raw e, config_file w = Some (Normal raw) /\ JSON_parse raw = Throw e)) :
  exists fx call,
    node w = Some (fx, 1%N)
    /\ sent fx = [] /\ out fx = [] /\ written fx = None /\ err fx = [call]
    /\ (config_file w = None ->
        call = Message (js "config.json not found at " ++ config_path w))
    /\ (forall e, config_file w = Some (Throw e) ->
                  call = Uncaught (js "Unexpected error:") e)
    /\ (forall raw e, config_file w = Some (Normal raw) -> JSON_parse raw = Throw e ->
                      call = Message (js "Failed to parse config.json: " ++ exn_message e)).
Proof.
  unfold node, main.
  destruct Hbad as [Hc|[(e & Hc)|(raw & e & Hc & Hp)]]; rewrite Hc; try rewrite Hp;
    do 2 eexists; (split; [reflexivity|]); do 4 (split; [reflexivity|]);
    (split; [|split]); try discriminate.
  - reflexivity.
  - intros e' [= <-]. reflexivity.
  - intros raw' e' [= <-] Hp'. rewrite Hp in Hp'. injection Hp' as <-. reflexivity.
Qed.

(** ** A failed probe, in the pool *)

(** X12.  A failed probe of an entry that is not [null] and has a name that
    prints is an ordinary result: the turn that ends it adds one result
    with the entry's key, the verdict [fail] and, as detail, the message of
    the error or else [HTTP] and the status, and prints its line; the
    failure does not make the worker throw: it returns when the queue is
    empty, and otherwise takes the next entry off the queue and sends its
    request, unless the base of that entry does not print, which is what
    then makes it throw; the other workers are left as they are. *)
Theorem failed_probe_in_pool total i net ms s s' key site base testUrl id
    (Hstep : resume total i net ms s = Some s')
    (Hworker : workers s !! i = Some (Awaiting key site base testUrl id))
    (Hsite : site <> JNull)
    (Hname : prints (or_else (name_of site) (JStr [])) = true)
    (Hfail : r_ok (fetch_result net) = false) :
  (exists r,
      results s' = results s ++ [r]
      /\ pr_key r = key /\ pr_verdict r = v_fail /\ pr_testUrl r = testUrl
      /\ pr_status r = r_status (fetch_result net)
      /\ pr_detail r = match r_error (fetch_result net) with
                       | Some (c :: m) => c :: m
                       | _ => js "HTTP " ++ decimal (r_status (fetch_result net))
                       end)
  /\ (exists line, stdout s' = stdout s ++ [line])
  /\ (queue s = [] -> workers s' !! i = Some Returned /\ queue s' = [])
  /\ (forall k st rest,
        queue s = (k, st) :: rest ->
        queue s' = rest
        /\ if startable (k, st)
           then issued s' = issued s ++ [request_of (k, st)]
                /\ exists b u n, workers s' !! i = Some (Awaiting k st b u n)
           else issued s' = issued s
                /\ exists e, workers s' !! i = Some (Threw e))
  /\ (forall j, j <> i -> workers s' !! j = workers s !! j).
Proof.
  unfold resume in Hstep. rewrite Hworker in Hstep.
  pose proof (failed_probe_recorded total key site base testUrl net ms s Hsite Hfail) as Hval.
  cbv zeta in Hval. rewrite Hval in Hstep. clear Hval.
  unfold prints in Hname.
  destruct (ToString (or_else (name_of site) (JStr []))) as [name|]; [|discriminate].
  assert (Hlt : i < length (workers s)) by (eapply lookup_lt_Some; exact Hworker).
  rewrite worker_loop_value in Hstep. cbn [queue console_log push settle] in Hstep.
  assert (Hstatus : or_zero (r_status (fetch_result net)) = r_status (fetch_result net)).
  { unfold or_zero. destruct (N.eqb_spec (r_status (fetch_result net)) 0); congruence. }
  destruct (queue s) as [|[k st] rest] eqn:Q.
  - injection Hstep as <-.
    cbn [results stdout queue workers set_worker console_log push settle].
    split; [eexists; split; [reflexivity|]; cbn; rewrite Hstatus; repeat split|].
    split; [eexists; reflexivity|].
    split; [intros _; split; [apply list_lookup_insert_eq; exact Hlt | exact Q]|].
    split; [discriminate|].
    intros j Hj. apply list_lookup_insert_ne. auto.
  - assert (Hst : startable (k, st)
                  = match ToString (base_of st) with Normal _ => true | Throw _ => false end)
      by reflexivity.
    destruct (ToString (base_of st)) eqn:Hu; injection Hstep as <-;
      cbn [results stdout issued queue workers set_worker console_log push settle];
      (split; [eexists; split; [reflexivity|]; cbn; rewrite Hstatus; repeat split|]);
      (split; [eexists; reflexivity|]);
      (split; [discriminate|]);
      (split; [|intros j Hj; apply list_lookup_insert_ne; auto]);
      intros k' st' rest' [= <- <- <-]; (split; [reflexivity|]); rewrite Hst;
      (split; [reflexivity|]).
    + do 3 eexists. apply list_lookup_insert_eq. exact Hlt.
    + eexists. apply list_lookup_insert_eq. exact Hlt.
Qed.

(** ** The entries of a configuration *)

(** X13.  Reading the entries does not throw, whatever JSON value the
    configuration is; and there are no entries exactly when [api_site] is
    absent or falsy, or is [true], a number, an empty array or an empty
    object. *)
Theorem configured_never_throws (cfg : json) :
  exists entries,
    configured cfg = Normal entries
    /\ (entries = [] <->
        value_truthy (api_site_of cfg) = false
        \/ exists v, api_site_of cfg = Some v
                     /\ match v with
                        | JBool _ | JNum _ | JArr [] | JObj [] => True
                        | _ => False
                        end).
Proof.
  destruct (value_truthy (api_site_of cfg)) eqn:Ht.
  2:{ exists []. split; [apply configured_no_site; exact Ht|]. split; auto. }
  destruct cfg as [| | | | |props]; try discriminate.
  cbn [api_site_of] in Ht. unfold configured, api_site_of.
  cbn [truthy get prop_name mbind completion_bind].
  change (prop_name p_api_site) with (js "api_site").
  destruct (own_property (js "api_site") props) as [v|]; [|discriminate].
  cbn [value_truthy] in *. rewrite Ht. cbn [mbind completion_bind default].
  destruct v as [|b|l|str|es|ps]; try discriminate; cbn [Object_entries];
    eexists; (split; [reflexivity|]).
  - split; [intros _; right; eexists; split; [reflexivity | exact I] | reflexivity].
  - split; [intros _; right; eexists; split; [reflexivity | exact I] | reflexivity].
  - destruct str as [|c str]; [discriminate|]. split; [discriminate|].
    intros [Hx|(v & [= <-] & Hx)]; [discriminate | destruct Hx].
  - destruct es as [|e es].
    + split; [intros _; right; eexists; split; [reflexivity | exact I] | reflexivity].
    + split; [discriminate|].
      intros [Hx|(v & [= <-] & Hx)]; [discriminate | destruct Hx].
  - destruct ps as [|p ps].
    + split; [intros _; right; eexists; split; [reflexivity | exact I] | reflexivity].
    + split; [discriminate|].
      intros [Hx|(v & [= <-] & Hx)]; [discriminate | destruct Hx].
Qed.

(** ** Results and entries *)

Lemma awaiting_entries_lookup (ws : list worker) i key site base testUrl id :
  ws !! i = Some (Awaiting key site base testUrl id) -> In (key, site) (awaiting_entries ws).
Proof.
  intros Hi. apply take_drop_middle in Hi. rewrite <- Hi, awaiting_entries_app.
  apply in_app_iff. right. left. reflexivity.
Qed.

(** X14.  Nothing is recorded that was not configured: at every [await]
    every result is the record of an entry of the configuration, with the
    entry's key, the base and the test URL computed from its [api], and as
    name the entry's [name], or the key when the entry has no name or a
    falsy one. *)
Theorem results_are_records entries s (Hreach : reachable entries s) :
  Forall (fun r => exists e, In e entries /\ record_of e r) (results s).
Proof.
  induction Hreach as [|s s' Hr IH (i & net & ms & Hstep)].
  - destruct (spawn_nothing_recorded entries) as (-> & _). constructor.
  - destruct (reachable_inv _ _ Hr) as ([_ _ _ Hok Hin] & _).
    destruct (resume_cases _ _ _ _ _ _ Hstep)
      as (key & site & base & testUrl & id & w' & Hi & _
          & [(_ & E1 & _)|(_ & vd & n & _ & Hn & E1 & _)]);
      rewrite E1; [exact IH|].
    apply Forall_app. split; [exact IH|]. repeat constructor.
    exists (key, site). split.
    + rewrite List.Forall_forall in Hin. apply Hin.
      eapply awaiting_entries_lookup. exact Hi.
    + rewrite List.Forall_forall in Hok.
      assert (Hw : worker_ok (Awaiting key site base testUrl id)).
      { apply Hok. apply list_elem_of_In. eapply list_elem_of_lookup_2. exact Hi. }
      destruct Hw as (-> & -> & Hbuilt). apply get_name in Hn. subst n.
      repeat split. exact Hbuilt.
Qed.

End Script.

(** * Instances of the theorems

    The theorems above hold for every reading of numbers; the instances
    below are evaluated with [literal_numbers]. *)

#[local] Existing Instance literal_numbers.

(** Every entry of a given list is not [null] and has a base and a name
    that print. *)
Ltac entries_ok :=
  repeat (constructor; [split; [discriminate | split; vm_compute; reflexivity]|]);
  constructor.

Lemma one_result_per_endpoint_witness :
  let s := run_pool (example_world [] (Throw AbortError)) 9 9 0 (spawn nine_entries) in
  reachable nine_entries s /\ all_returned s = true
  /\ map pr_key (results s) ≡ₚ map fst nine_entries
  /\ issued s = map request_of nine_entries.
Proof.
  intros s.
  destruct (one_result_per_endpoint nine_entries) as (Hdone & Hrun & _).
  assert (Hsites : Forall entry_ok nine_entries) by entries_ok.
  destruct (Hrun Hsites (example_world [] (Throw AbortError))) as [Hr Hall].
  destruct (Hdone _ Hr Hall) as (Hkeys & _ & _ & Hsent & _).
  repeat split; assumption.
Defined.

Lemma judgeResponseShape_json_witness :
  JSON_parse (json_text "{'list':[1,2]}")
  = Normal (JObj [(js "list", JArr [JNum (js "1"); JNum (js "2")])])
  /\ judgeResponseShape (json_text "{'list':[1,2]}")
     = Normal {| j_verdict := v_ok; j_detail := js "JSON with list[]" |}.
Proof.
  split; [reflexivity|].
  exact (proj1 (judgeResponseShape_json (json_text "{'list':[1,2]}")
                  (JObj [(js "list", JArr [JNum (js "1"); JNum (js "2")])]) eq_refl)).
Defined.

Lemma judgeResponseShape_not_json_witness :
  JSON_parse (js "hello") = Throw (SyntaxError (js "Unexpected token in JSON"))
  /\ judgeResponseShape (js "hello")
     = Normal {| j_verdict := v_text; j_detail := js "Plain text response" |}.
Proof.
  split; [reflexivity|].
  exact (judgeResponseShape_not_json (js "hello")
           (SyntaxError (js "Unexpected token in JSON")) eq_refl).
Defined.

(** C3 as the specification words it does not hold: the body [ <a>] is not
    JSON and does not start with [<], it is not empty, and yet its verdict
    is [xml_or_html] and not [text]. *)
Lemma judgeResponseShape_leading_space :
  JSON_parse (js " <a>") = Throw (SyntaxError (js "Unexpected token in JSON"))
  /\ startsWith (js " <a>") "<" = false
  /\ js " <a>" <> []
  /\ judgeResponseShape (js " <a>")
     = Normal {| j_verdict := v_xml_or_html; j_detail := js "Non-JSON response (XML/HTML)" |}
  /\ v_xml_or_html <> v_text.
Proof. repeat split; try reflexivity; discriminate. Qed.

Lemma in_flight_bounded_witness :
  let s := run_pool (example_world [] (Throw AbortError)) 9 1 0 (spawn nine_entries) in
  reachable nine_entries s /\ in_flight s <= 8 /\ in_flight (spawn nine_entries) = 8.
Proof.
  intros s.
  assert (Hr : reachable nine_entries s) by (apply run_pool_reachable; constructor).
  destruct (in_flight_bounded nine_entries s Hr) as (Hle & _ & _ & _ & Hfull).
  split; [exact Hr|]. split; [exact Hle|]. apply Hfull; [vm_compute; lia|].
  repeat (constructor; [vm_compute; reflexivity|]). constructor.
Defined.

Lemma no_entries_no_report_witness :
  let w := example_world (json_text "{'api_site':{}}") (Throw AbortError) in
  config_file w = Some (Normal (json_text "{'api_site':{}}"))
  /\ JSON_parse (json_text "{'api_site':{}}") = Normal (JObj [(js "api_site", JObj [])])
  /\ configured (JObj [(js "api_site", JObj [])]) = Normal []
  /\ node w = Some (no_entries, 0%N).
Proof.
  intros w. do 3 (split; [reflexivity|]).
  exact (proj1 (no_entries_no_report w (json_text "{'api_site':{}}")
                  (JObj [(js "api_site", JObj [])]) eq_refl eq_refl eq_refl)).
Defined.

Lemma missing_api_site_is_empty_witness :
  let w := example_world (json_text "{'cache_time':7200}") (Throw AbortError) in
  JSON_parse (json_text "{'cache_time':7200}")
  = Normal (JObj [(js "cache_time", JNum (js "7200"))])
  /\ value_truthy (api_site_of (JObj [(js "cache_time", JNum (js "7200"))])) = false
  /\ node w = Some (no_entries, 0%N).
Proof.
  intros w. do 2 (split; [reflexivity|]).
  exact (proj2 (proj2 (missing_api_site_is_empty w (json_text "{'cache_time':7200}")
                         (JObj [(js "cache_time", JNum (js "7200"))])
                         eq_refl eq_refl eq_refl))).
Defined.

Lemma fetchWithTimeout_never_throws_witness :
  fetchWithTimeout (fun _ => Throw AbortError) (js "http://a.example/?ac=videolist") TIMEOUT_MS
  = Normal {| r_ok := false; r_status := 0; r_text := None;
              r_error := Some (js "This operation was aborted") |}.
Proof.
  destruct (fetchWithTimeout_never_throws (fun _ => Throw AbortError)
              (js "http://a.example/?ac=videolist") TIMEOUT_MS)
    as (_ & _ & _ & _ & _ & _ & Hreject & _).
  exact (Hreject AbortError eq_refl).
Defined.

Lemma exit_status_witness :
  JSON_parse two_sites_config = Normal two_sites
  /\ exists fx, node (example_world two_sites_config (Throw AbortError)) = Some (fx, 0%N).
Proof.
  split; [reflexivity|].
  destruct (exit_status (example_world two_sites_config (Throw AbortError)))
    as (fx & code & Hnode & _ & Hzero & _).
  exists fx. rewrite Hnode.
  rewrite (Hzero two_sites_config two_sites
             [(js "a", JObj [(js "api", JStr (js "http://a.example/api.php/provide/vod"));
                             (js "name", JStr (js "A"))]);
              (js "b", JObj [(js "api", JStr (js "http://b.example/vod?x=1"))])]);
    try reflexivity.
  entries_ok.
Defined.

(** ** Sites that cannot be printed

    An [api] that is an object with an own [toString] stops the worker at
    line 108, before any request; a [name] of that kind stops it at line
    125, after the result has been pushed and counted.  Either way [main]
    ends by the [TypeError], no report is written and the status is 1. *)

Lemma unprintable_base_run (net : completion response) :
  node (example_world unprintable_base_config net)
  = Some ({| out := [js "Testing 1 sources (GET only, timeout 10000ms)..." ++ [10%N]];
             err := [Uncaught (js "Unexpected error:") not_primitive_error];
             sent := []; written := None |}, 1%N).
Proof. vm_compute. reflexivity. Qed.

Lemma unprintable_name_run :
  let w := example_world unprintable_name_config (Throw AbortError) in
  let s := run_pool w 1 1 0
             (spawn [(js "a", JObj [(js "api", JStr (js "http://a.example/vod"));
                                    (js "name", JObj [(js "toString", JNum (js "1"))])])]) in
  node w
  = Some ({| out := [js "Testing 1 sources (GET only, timeout 10000ms)..." ++ [10%N]];
             err := [Uncaught (js "Unexpected error:") not_primitive_error];
             sent := [fetch_init (js "http://a.example/vod?ac=videolist&wd=test&pg=1")
                        TIMEOUT_MS];
             written := None |}, 1%N)
  /\ length (results s) = 1 /\ tested s = 1 /\ stdout s = []
  /\ first_throw (workers s) = Some not_primitive_error.
Proof. vm_compute. repeat split; reflexivity. Qed.

Lemma unprintable_base_in_flight :
  length nine_entries_one_unprintable = 9
  /\ in_flight (spawn nine_entries_one_unprintable) = 7
  /\ length (issued (spawn nine_entries_one_unprintable)) = 7
  /\ length (queue (spawn nine_entries_one_unprintable)) = 1
  /\ first_throw (workers (spawn nine_entries_one_unprintable)) = Some not_primitive_error.
Proof. vm_compute. repeat split; reflexivity. Qed.

(** ** Instances of the further properties *)

Lemma nine_after_one_reachable : reachable nine_entries nine_after_one.
Proof.
  eapply reach_step; [apply reach_spawn|].
  exists 0, (Throw AbortError), 25%Z. vm_compute. reflexivity.
Qed.

Lemma buildTestUrl_ignores_padding_witness :
  buildTestUrl (JStr ([9%N; 32%N] ++ js "http://a.example/vod" ++ [160%N; 10%N]))
  = buildTestUrl (JStr (js "http://a.example/vod")).
Proof.
  exact (buildTestUrl_ignores_padding [9%N; 32%N] (js "http://a.example/vod") [160%N; 10%N]
           eq_refl eq_refl).
Defined.

Lemma buildTestUrl_outcome_witness :
  own_toString (JArr [JStr (js "http://a.example/vod"); JObj [(js "toString", JNum (js "1"))]])
  = true
  /\ buildTestUrl (JArr [JStr (js "http://a.example/vod"); JObj [(js "toString", JNum (js "1"))]])
     = Throw not_primitive_error.
Proof.
  split; [reflexivity|].
  exact (proj1 (buildTestUrl_outcome
                  (JArr [JStr (js "http://a.example/vod");
                         JObj [(js "toString", JNum (js "1"))]])) eq_refl).
Defined.

Lemma missing_api_gives_bare_query_witness :
  value_truthy (api_of (JObj [(js "name", JStr (js "A"))])) = false
  /\ site_base (JObj [(js "name", JStr (js "A"))]) = Normal (JStr []).
Proof.
  split; [reflexivity|].
  exact (proj1 (missing_api_gives_bare_query (JObj [(js "name", JStr (js "A"))]) eq_refl)).
Defined.

Lemma results_grow_one_by_one_witness :
  tested nine_after_one = length (results nine_after_one)
  /\ tested nine_after_one <= length nine_entries.
Proof.
  destruct (results_grow_one_by_one nine_entries nine_after_one nine_after_one_reachable)
    as (H1 & _ & _ & H3 & _).
  split; assumption.
Defined.

Lemma requests_in_entry_order_witness :
  exists k, queue nine_after_one = drop k nine_entries
            /\ issued nine_after_one = map request_of (List.filter startable (take k nine_entries)).
Proof.
  destruct (requests_in_entry_order nine_entries nine_after_one nine_after_one_reachable)
    as (k & _ & Hq & Hi & _).
  exists k. split; assumption.
Defined.

Lemma summary_counts_every_result_witness :
  bucket_total (results nine_after_one) = length (results nine_after_one).
Proof.
  exact (proj1 (summary_counts_every_result nine_entries nine_after_one
                  nine_after_one_reachable)).
Defined.

Lemma results_are_records_witness :
  Forall (fun r => exists e, In e nine_entries /\ record_of e r) (results nine_after_one).
Proof.
  exact (results_are_records nine_entries nine_after_one nine_after_one_reachable).
Defined.

Lemma all_requests_failing_witness :
  exists fx rep,
    node (example_world two_sites_config (Throw AbortError)) = Some (fx, 0%N)
    /\ written fx = Some (js "/app/source-check-report.json", rep)
    /\ length (report_results rep) = 2
    /\ In (js "FAIL/EMPTY: 2") (out fx).
Proof.
  destruct (all_requests_failing (example_world two_sites_config (Throw AbortError))
              two_sites_config two_sites
              [(js "a", JObj [(js "api", JStr (js "http://a.example/api.php/provide/vod"));
                              (js "name", JStr (js "A"))]);
               (js "b", JObj [(js "api", JStr (js "http://b.example/vod?x=1"))])]
              eq_refl eq_refl eq_refl ltac:(discriminate)
              ltac:(entries_ok) eq_refl ltac:(intros; reflexivity))
    as (fx & rep & Hnode & Hw & Hlen & _ & _ & Hline).
  exists fx, rep. repeat split; assumption.
Defined.

Lemma fatal_config_attempts_nothing_witness :
  exists fx, node world_without_config = Some (fx, 1%N) /\ sent fx = [] /\ written fx = None.
Proof.
  destruct (fatal_config_attempts_nothing world_without_config (or_introl eq_refl))
    as (fx & line & Hnode & Hsent & _ & Hw & _).
  exists fx. repeat split; assumption.
Defined.

Lemma failed_probe_in_pool_witness :
  exists r, results nine_after_one = [r] /\ pr_key r = js "s1" /\ pr_verdict r = v_fail
            /\ pr_detail r = js "This operation was aborted".
Proof.
  assert (Hstep : resume 9 0 (Throw AbortError) 25 (spawn nine_entries) = Some nine_after_one)
    by (vm_compute; reflexivity).
  assert (Hworker : workers (spawn nine_entries) !! 0
                    = Some (Awaiting (js "s1")
                              (JObj [(js "api", JStr (js "http://example.com/api.php/provide/vod"));
                                     (js "name", JStr (js "s1"))])
                              (JStr (js "http://example.com/api.php/provide/vod"))
                              (js "http://example.com/api.php/provide/vod?ac=videolist&wd=test&pg=1")
                              0))
    by (vm_compute; reflexivity).
  assert (Hname : prints (or_else (name_of (JObj [(js "api", JStr (js "http://example.com/api.php/provide/vod"));
                                                   (js "name", JStr (js "s1"))]))
                                  (JStr [])) = true)
    by (vm_compute; reflexivity).
  destruct (failed_probe_in_pool 9 0 (Throw AbortError) 25 (spawn nine_entries) nine_after_one
              _ _ _ _ _ Hstep Hworker ltac:(discriminate) Hname eq_refl)
    as ((r & Hres & Hkey & Hv & _ & _ & Hd) & _).
  exists r. repeat split; assumption.
Defined.
